(** * Biomarker / dependency network pipeline: a shallow embedding

    The development follows the four scripts that make up the pipeline:

    - [scripts/preprocess.py]           (module [Preprocess]): the table merger;
    - [scripts/feature_selection.py]    (module [FeatureSelection]): the
      correlation scorer and its per-dependency renormalisation;
    - [scripts/community_detection.py]  (module [CommunityDetection]): edge
      sparsification, the bipartite graph builder and the community table;
    - [scripts/network_build.py]        (module [NetworkBuild]): the older
      graph builder and Louvain table.

    Modelling conventions.
    - A pandas frame is a list of rows in row order, each with its index
      label; column names are strings.
    - Numeric cells of the omics tables are IEEE binary64 values
      ([spec_float] of the Standard Library), so that NaN, signed zeros and
      infinities are present.
    - Correlations and importance scores are exact rationals ([Q]): the
      arithmetic performed on them (absolute value, comparison, maximum,
      division) is modelled without rounding.
    - A Python [dict] is an insertion-ordered association list with unique
      keys; a NetworkX graph is a pair of finite maps (node attributes and
      adjacency), as in [networkx.Graph]. *)

From Stdlib Require Import QArith Qabs Qminmax.
From Stdlib Require OrderedTypeEx.
From Stdlib Require Import Floats.SpecFloat.
From stdpp Require Import gmap strings list fin_maps sorting.

Set Default Proof Using "Type".
#[local] Set Warnings "-clear-no-such-hyp".

(** Standard Library [map] and stdpp's [<$>] on lists are the same function;
    the lemmas of stdpp are stated for the latter. *)
Ltac fmapify :=
  repeat match goal with
         | |- context [@map ?A ?B ?f ?l] =>
             change (@map A B f l) with (f <$> l)
         | H : context [@map ?A ?B ?f ?l] |- _ =>
             change (@map A B f l) with (f <$> l) in H
         end.

(** ** Generic pieces of pandas and Python used by several scripts *)

Module Pandas.

(** Comparisons of scores are decidable, so boolean masks compute. *)
#[global] Instance Qlt_decision : RelDecision Qlt :=
  λ x y, match Qlt_le_dec x y with
         | left H => left H
         | right H => right (Qle_not_lt _ _ H)
         end.

#[global] Instance Qle_decision : RelDecision Qle :=
  λ x y, match Qlt_le_dec y x with
         | left H => right (Qlt_not_le _ _ H)
         | right H => left H
         end.

Section ordering.
Context {A : Type} (leb : A → A → bool).

(** Placement of one row in front of an already ordered tail: the new row
    goes before the first row it is [leb] to, so equal rows keep their
    original relative order. *)
Fixpoint insert_row (x : A) (l : list A) : list A :=
  match l with
  | [] => [x]
  | y :: t => if leb x y then x :: y :: t else y :: insert_row x t
  end.

(** [DataFrame.sort_values] with a stable order on rows. *)
Definition sort_values (l : list A) : list A := foldr insert_row [] l.

End ordering.

Section grouping.
Context {A : Type} (key : A → string).

(** [GroupBy.head(n)]: a row is kept when its cumulative count inside its
    group (the number of earlier rows of the same group) is below [n]; the
    kept rows stay in frame order.  [seen] holds the running group sizes. *)
Fixpoint head_from (n : nat) (seen : gmap string nat) (l : list A) : list A :=
  match l with
  | [] => []
  | r :: t =>
      let c := default 0%nat (seen !! key r) in
      let rest := head_from n (<[key r := S c]> seen) t in
      if (c <? n)%nat then r :: rest else rest
  end.

Definition groupby_head (n : nat) (l : list A) : list A := head_from n ∅ l.

(** Rows of the group labelled [k]. *)
Definition group (k : string) (l : list A) : list A :=
  filter (λ r, key r = k) l.

End grouping.

(** [Series.unique()]: distinct values in order of first appearance. *)
Fixpoint unique_from (seen : gset string) (l : list string) : list string :=
  match l with
  | [] => []
  | x :: t =>
      if bool_decide (x ∈ seen) then unique_from seen t
      else x :: unique_from ({[x]} ∪ seen) t
  end.

Definition unique (l : list string) : list string := unique_from ∅ l.

(** [Series.max()] of a group of scores; [None] for an empty series. *)
Definition series_max (x : list Q) : option Q :=
  match x with
  | [] => None
  | v :: t => Some (fold_left Qmax t v)
  end.

(** A Python dict: [d[k] = v] overwrites in place or appends a new key. *)
Fixpoint dict_set {V : Type} (k : string) (v : V) (d : list (string * V))
  : list (string * V) :=
  match d with
  | [] => [(k, v)]
  | (k', v') :: t =>
      if bool_decide (k = k') then (k', v) :: t else (k', v') :: dict_set k v t
  end.

(** The exceptions the scripts raise. *)
Inductive exn :=
  | ValueError (msg : string)
  | RuntimeError (msg : string).

(** Number of rows of group [k]. *)
Definition group_size {A : Type} (key : A → string) (k : string) (l : list A)
  : nat :=
  length (group key k l).

End Pandas.

(** ** scripts/preprocess.py *)

Module Preprocess.
Import Pandas.

(** A cell of a table read by [pd.read_csv]: a binary64 number (NaN for a
    missing entry), or a value that [pd.to_numeric] cannot read as a number. *)
Inductive cell :=
  | Num (x : spec_float)
  | Text (s : string).

(** A cell of the merged table: expression columns stay binary64, binarised
    columns are [np.int8]. *)
Inductive value :=
  | VFloat (x : spec_float)
  | VInt8 (z : Z)
  | VText (s : string).

(** Row labels: positions of the default [RangeIndex], or the cell of the
    column the frame was indexed on.  Two labels match in a join when they
    are the same datum; the identifiers of the files are text. *)
Inductive label :=
  | Pos (i : nat)
  | Key (c : cell).

#[global] Instance spec_float_eq_dec : EqDecision spec_float.
Proof. solve_decision. Defined.
#[global] Instance cell_eq_dec : EqDecision cell.
Proof. solve_decision. Defined.
#[global] Instance label_eq_dec : EqDecision label.
Proof. solve_decision. Defined.

(** A frame: the name of its index, its column labels, and its rows in
    order, each with its index label. *)
Record DataFrame (C : Type) := Frame {
  index_name : option string;
  columns : list string;
  rows : list (label * list C);
}.
Arguments Frame {C} _ _ _.
Arguments index_name {C} _.
Arguments columns {C} _.
Arguments rows {C} _.

Definition index {C} (df : DataFrame C) : list label := map fst (rows df).

(** [df.shape[0]] *)
Definition shape0 {C} (df : DataFrame C) : nat := length (rows df).

(** [df.iloc[i, j]] *)
Definition iloc {C} (df : DataFrame C) (i j : nat) : option C :=
  rows df !! i ≫= λ r, r.2 !! j.

(** Cell-wise operations ([fillna], [abs], comparisons, [astype]) keep the
    index and the columns. *)
Definition applymap {C D} (f : C → D) (df : DataFrame C) : DataFrame D :=
  Frame (index_name df) (columns df) (map (λ r, (r.1, map f r.2)) (rows df)).

(** Positional column selection. *)
Fixpoint select {C} (mask : list bool) (r : list C) : list C :=
  match mask, r with
  | b :: m, x :: t => if b then x :: select m t else select m t
  | _, _ => []
  end.

Definition select_columns {C} (mask : list bool) (df : DataFrame C)
  : DataFrame C :=
  Frame (index_name df) (select mask (columns df))
        (map (λ r, (r.1, select mask r.2)) (rows df)).

(** [df.drop(columns=names)] *)
Definition drop_columns {C} (names : list string) (df : DataFrame C)
  : DataFrame C :=
  select_columns (map (λ c, bool_decide (c ∉ names)) (columns df)) df.

Definition META_COLS_CANDIDATES : gset string :=
  list_to_set
    ["Unnamed: 0"; "SequencingID"; "IsDefaultEntryForModel"; "ModelConditionID";
     "ProfileID"; "DataType"; "Stranded"; "SequencingDate"; "DepMapCode";
     "Lineage"; "CellFormat"; "GrowthMedia"; "GrowthPattern";
     "SourceModelCondition"].

Definition drop_metadata_cols {C} (df : DataFrame C) (keep : gset string)
  : DataFrame C :=
  let drop_cols :=
    filter (λ c, c ∈ META_COLS_CANDIDATES ∧ c ∉ keep) (columns df) in
  match drop_cols with
  | [] => df
  | _ => drop_columns drop_cols df
  end.

(** [df.set_index(name, drop=True)]: the cells of column [name] become the
    row labels and the column leaves the frame. *)
Definition set_index (name : string) (df : DataFrame cell) : DataFrame cell :=
  match list_find (λ c, c = name) (columns df) with
  | Some (p, _) =>
      Frame (Some name) (delete p (columns df))
            (map (λ r, (Key (default (Num S754_nan) (r.2 !! p)), delete p r.2))
                 (rows df))
  | None => df
  end.

Definition set_index_on_modelid (df : DataFrame cell) (dataset_name : string)
  : exn + DataFrame cell :=
  if bool_decide ("ModelID" ∈ columns df) then inr (set_index "ModelID" df)
  else if bool_decide (index_name df ≠ Some "ModelID") then
    inl (ValueError ("[" +:+ dataset_name +:+ "] No 'ModelID' column or index found."))
  else inr df.

(** [pd.to_numeric(errors="coerce")] on one cell. *)
Definition to_numeric (c : cell) : spec_float :=
  match c with
  | Num x => x
  | Text _ => S754_nan
  end.

Definition isna (x : spec_float) : bool :=
  match x with
  | S754_nan => true
  | _ => false
  end.

Definition coerce_numeric_frame (df : DataFrame cell) (dataset_name : string)
  : DataFrame spec_float :=
  let numeric := applymap to_numeric df in
  let all_nan (j : nat) :=
    forallb (λ r, from_option isna true (r.2 !! j)) (rows numeric) in
  let all_nan_cols := map all_nan (seq 0 (length (columns numeric))) in
  if existsb id all_nan_cols then select_columns (map negb all_nan_cols) numeric
  else numeric.

(** [df.fillna(0)] on one cell. *)
Definition fillna0 (x : spec_float) : spec_float :=
  if isna x then S754_zero false else x.

(** [astype(np.int8)] of a boolean. *)
Definition int8_of_bool (b : bool) : Z := if b then 1%Z else 0%Z.

Definition binarize_any_nonzero (df : DataFrame spec_float)
  (dataset_name : string) : DataFrame Z :=
  let df := applymap fillna0 df in
  applymap int8_of_bool
    (applymap (λ x, SFltb (S754_zero false) x) (applymap SFabs df)).

Definition binarize_cnv_loss (df : DataFrame spec_float)
  (threshold : spec_float) (dataset_name : string) : DataFrame Z :=
  let df := applymap fillna0 df in
  applymap int8_of_bool (applymap (λ x, SFltb x threshold) df).


(** The binary64 number written [-0.3] in the script. *)
Definition CNV_LOSS_THRESHOLD : spec_float :=
  S754_finite true 5404319552844595 (-54).

(** What [pd.read_csv] returns: a header and the records, under a default
    [RangeIndex] without a name. *)
Record csv := Csv {
  header : list string;
  records : list (list cell);
}.

Definition read_csv (f : csv) : DataFrame cell :=
  Frame None (header f) (imap (λ i r, (Pos i, r)) (records f)).

(** [None] stands for a path that does not exist. *)
Definition load_omics_table (path : option csv) (dataset_name : string)
  : exn + option (DataFrame cell) :=
  match path with
  | None => inr None
  | Some f =>
      let df := read_csv f in
      let df := drop_metadata_cols df {["ModelID"]} in
      match set_index_on_modelid df dataset_name with
      | inl e => inl e
      | inr df => inr (Some df)
      end
  end.

Definition suffix_overlaps {C D} (left : DataFrame C) (right : DataFrame D)
  (right_suffix : string) : DataFrame D :=
  let overlap : gset string :=
    list_to_set (columns left) ∩ list_to_set (columns right) in
  if bool_decide (overlap = ∅) then right
  else
    Frame (index_name right)
          (map (λ c, if bool_decide (c ∈ overlap)
                     then c +:+ "_" +:+ right_suffix else c) (columns right))
          (rows right).

(** The exception of [DataFrame.join] for frames that share a column label. *)
Definition overlap_error : exn :=
  ValueError "columns overlap but no suffix specified".

(** [left.join(right, how="inner")]: pandas refuses two frames that share a
    column label; otherwise every row of [left] is paired, in order, with the
    rows of [right] carrying the same label. *)
Definition join_inner {C} (left right : DataFrame C) : exn + DataFrame C :=
  if bool_decide (Exists (λ c, c ∈ columns left) (columns right)) then
    inl overlap_error
  else
    inr (Frame (index_name left) (columns left ++ columns right)
           (flat_map
              (λ a, map (λ b, (a.1, a.2 ++ b.2))
                        (filter (λ b, b.1 = a.1) (rows right)))
              (rows left))).

(** The merge loop of lines 207-214, started from [merged]. *)
Fixpoint merge_loop {C} (merged : option (DataFrame C))
  (tables : list (string * DataFrame C)) : exn + option (DataFrame C) :=
  match tables with
  | [] => inr merged
  | (name, df) :: rest =>
      match merged with
      | None => merge_loop (Some df) rest
      | Some m =>
          let df_suffixed := suffix_overlaps m df name in
          match join_inner m df_suffixed with
          | inl e => inl e
          | inr m' => merge_loop (Some m') rest
          end
      end
  end.

(** *** The script as a whole *)

(** A file written by [to_csv]. *)
Record artifact := Artifact {
  path : string;
  written_header : list string;
  written_rows : list (label * list value);
}.

(** The script either runs to its end or stops at the first exception; in
    both cases it leaves behind the files written so far. *)
Definition script (A : Type) : Type :=
  list artifact → (exn + A) * list artifact.

#[global] Instance script_ret : MRet script := λ A a out, (inr a, out).
#[global] Instance script_bind : MBind script := λ A B f c out,
  match c out with
  | (inl e, out') => (inl e, out')
  | (inr a, out') => f a out'
  end.

Definition raise {A} (e : exn) : script A := λ out, (inl e, out).

Definition lift {A} (r : exn + A) : script A := λ out, (r, out).

Definition to_csv (p : string) (hdr : list string)
  (body : list (label * list value)) : script unit :=
  λ out, (inr (), out ++ [Artifact p hdr body]).

Definition OUT_FILE : string := "outputs/merged_biomarkers.csv".

(** The files under [data/]; [None] for a file that is absent. *)
Record data_dir := DataDir {
  expression_csv : option csv;
  mutation_damaging_csv : option csv;
  mutation_hotspot_csv : option csv;
  cnv_wgs_csv : option csv;
  crispr_dependency_csv : option csv;
}.

Definition value_of_cell (c : cell) : value :=
  match c with
  | Num x => VFloat x
  | Text s => VText s
  end.

(** Lines 171-186: only tables that loaded and have rows take part. *)
Definition usable (l : list (string * option (DataFrame value)))
  : list (string * DataFrame value) :=
  omap (λ p, match p.2 with
             | Some df => if (0 <? shape0 df)%nat then Some (p.1, df) else None
             | None => None
             end) l.

(** Lines 127-186. *)
Definition load_tables (data : data_dir)
  : exn + list (string * DataFrame value) :=
  match load_omics_table (expression_csv data) "Expression" with
  | inl e => inl e
  | inr expr =>
  let expr := (λ df, coerce_numeric_frame df "Expression") <$> expr in
  match load_omics_table (mutation_damaging_csv data) "MutationDamaging" with
  | inl e => inl e
  | inr mut_dmg =>
  let mut_dmg :=
    (λ df, binarize_any_nonzero (coerce_numeric_frame df "MutationDamaging")
             "MutationDamaging") <$> mut_dmg in
  match load_omics_table (mutation_hotspot_csv data) "MutationHotspot" with
  | inl e => inl e
  | inr mut_hot =>
  let mut_hot :=
    (λ df, binarize_any_nonzero (coerce_numeric_frame df "MutationHotspot")
             "MutationHotspot") <$> mut_hot in
  match load_omics_table (cnv_wgs_csv data) "CNV_WGS" with
  | inl e => inl e
  | inr cnv =>
  let cnv :=
    (λ df, binarize_cnv_loss (coerce_numeric_frame df "CNV_WGS")
             CNV_LOSS_THRESHOLD "CNV_WGS") <$> cnv in
  inr (usable [("expr", applymap VFloat <$> expr);
               ("mut_dmg", applymap VInt8 <$> mut_dmg);
               ("mut_hot", applymap VInt8 <$> mut_hot);
               ("cnv", applymap VInt8 <$> cnv)])
  end end end end.

(** Lines 264-280: the dependency table is copied when it is present. *)
Definition save_dependencies (data : data_dir) : script unit :=
  match crispr_dependency_csv data with
  | Some f =>
      let deps := read_csv f in
      let deps :=
        if bool_decide ("ModelID" ∈ columns deps)
        then set_index "ModelID" deps else deps in
      to_csv "outputs/dependencies.csv"
             (default "" (index_name deps) :: columns deps)
             (rows (applymap value_of_cell deps))
  | None => mret ()
  end.

Definition main (data : data_dir) : script unit :=
  tables ← lift (load_tables data);
  match tables with
  | [] => raise (RuntimeError "No usable datasets were loaded. Check file paths and formats.")
  | _ =>
      merged ← lift (merge_loop None tables);
      match merged with
      | None => raise (RuntimeError "Merged result is empty (0 rows).")
      | Some merged =>
          if (shape0 merged =? 0)%nat
          then raise (RuntimeError "Merged result is empty (0 rows).")
          else
            (* reset_index + rename: the index becomes the column ModelID *)
            let hdr := "ModelID" :: columns merged in
            _ ← to_csv OUT_FILE hdr (rows merged);
            _ ← to_csv "outputs/processed_features.csv" hdr (rows merged);
            save_dependencies data
      end
  end.

(** The run of the script from an empty output directory. *)
Definition run (data : data_dir) : (exn + unit) * list artifact := main data [].

(** The omics files that are present. *)
Definition omics_files (data : data_dir) : list csv :=
  omap id [expression_csv data; mutation_damaging_csv data;
           mutation_hotspot_csv data; cnv_wgs_csv data].

(** Some input table has no ModelID column (a table just read has no index
    name either). *)
Definition lacks_modelid (data : data_dir) : Prop :=
  ∃ f, f ∈ omics_files data ∧ "ModelID" ∉ header f.

(** All tables load and the inner join of the usable ones has no row. *)
Definition joined_empty (data : data_dir) : Prop :=
  ∃ tables merged,
    load_tables data = inr tables
    ∧ merge_loop None tables = inr (Some merged)
    ∧ shape0 merged = 0%nat.

(** [df[c].iloc[i]]: the cell of row [i] under the first column labelled
    [c]. *)
Definition at_column {C} (df : DataFrame C) (i : nat) (c : string) : option C :=
  match list_find (λ c', c' = c) (columns df) with
  | Some (p, _) => iloc df i p
  | None => None
  end.

(** Position, among the selected columns, of the column at position [p]. *)
Definition rank (mask : list bool) (p : nat) : nat :=
  length (filter (λ b, b = true) (take p mask)).

(** [report_overlap]: the number it prints, the size of
    [set(idx_a).intersection(set(idx_b))]. *)
Definition report_overlap (idx_a idx_b : list label) : nat :=
  length (remove_dups (filter (λ l, l ∈ idx_b) idx_a)).

(** The exception of line 189. *)
Definition no_usable_datasets : exn :=
  RuntimeError "No usable datasets were loaded. Check file paths and formats.".

End Preprocess.
(** ** scripts/feature_selection.py *)

Module FeatureSelection.
Import Pandas.

(** One row of [processed_features.csv]. *)
Record edge := Edge {
  biomarker : string;
  dependency : string;
  importance_score : Q;
}.

#[global] Instance Q_eq_dec : EqDecision Q.
Proof. solve_decision. Defined.
#[global] Instance edge_eq_dec : EqDecision edge.
Proof. solve_decision. Defined.

Definition with_score (e : edge) (w : Q) : edge :=
  {| biomarker := biomarker e; dependency := dependency e;
     importance_score := w |}.

Definition TOPK_PER_BIOMARKER : nat := 50.
Definition MIN_ABS_CORR : Q := 0.15.
Definition BATCH : nat := 200.

(** [range(0, n, step)] *)
Definition range_step (n step : nat) : list nat :=
  map (λ k, k * step)%nat (seq 0 ((n + step - 1) / step)).

(** [corr_block.loc[b]]: the correlations of biomarker column [b] with the
    dependency columns, in column order.  [corr b d] is the entry of
    [bio_z.T @ dep_z / n] for the pair. *)
Definition corr_row (corr : string → string → Q) (dep_names : list string)
  (b : string) : list (string * Q) :=
  map (λ d, (d, corr b d)) dep_names.

(** [corr_block.loc[b].abs()] *)
Definition magnitudes (corr : string → string → Q) (dep_names : list string)
  (b : string) : list (string * Q) :=
  map (λ p, (p.1, Qabs p.2)) (corr_row corr dep_names b).

(** The order in which [nlargest] ranks the entries of a series. *)
Definition larger_first (x y : string * Q) : bool := Qle_bool y.2 x.2.

(** [Series.nlargest(n)]: largest values first, equal values in their
    original order, the first [n] kept. *)
Definition nlargest (n : nat) (s : list (string * Q)) : list (string * Q) :=
  take n (sort_values larger_first s).

(** Lines 77-81, for one biomarker column. *)
Definition links_of (corr : string → string → Q) (dep_names : list string)
  (b : string) : list edge :=
  let s := magnitudes corr dep_names b in
  let top := nlargest TOPK_PER_BIOMARKER s in
  let top := filter (λ p, (MIN_ABS_CORR <= p.2)%Q) top in
  map (λ p, Edge b p.1 p.2) top.

(** Lines 73-81: the batched loop over the biomarker columns. *)
Definition rows_out (corr : string → string → Q) (dep_names : list string)
  (biomarker_names : list string) : list edge :=
  flat_map
    (λ i, let cols := take BATCH (drop i biomarker_names) in
          flat_map (links_of corr dep_names) cols)
    (range_step (length biomarker_names) BATCH).

(** [x.max() if x.max() > 0 else 1.0]; the maximum of an empty series is
    NaN, which is not positive. *)
Definition divisor (x : list Q) : Q :=
  match series_max x with
  | Some m => if decide (0 < m)%Q then m else 1%Q
  | None => 1%Q
  end.

(** Scores of the group of dependency [d]. *)
Definition group_scores (out_df : list edge) (d : string) : list Q :=
  map importance_score (group dependency d out_df).

(** Lines 86-90. *)
Definition renormalize (out_df : list edge) : list edge :=
  match out_df with
  | [] => out_df
  | _ =>
      map (λ e, with_score e
                  (importance_score e / divisor (group_scores out_df (dependency e))))
          out_df
  end.

(** The content of [processed_features.csv]. *)
Definition processed_features (corr : string → string → Q)
  (dep_names biomarker_names : list string) : list edge :=
  renormalize (rows_out corr dep_names biomarker_names).

End FeatureSelection.

(** ** scripts/community_detection.py *)

Module CommunityDetection.
Import Pandas.
Export FeatureSelection(edge, Edge, biomarker, dependency, importance_score,
                        with_score).

Definition EDGE_MIN : Q := 0.015.
Definition TOPK_PER_DEP : nat := 250.
Definition TOPK_PER_BM : nat := 150.

(** [valid_deps = set(dependencies_df["dependency"].astype(str).unique())] *)
Definition valid_deps (dependencies_df : list string) : gset string :=
  list_to_set (unique dependencies_df).

(** [features_df[features_df["dependency"].isin(valid_deps)]] *)
Definition keep_listed (valid : gset string) (df : list edge) : list edge :=
  filter (λ e, dependency e ∈ valid) df.

(** [features_df[features_df["importance_score"] > 0]] *)
Definition keep_positive (df : list edge) : list edge :=
  filter (λ e, (0 < importance_score e)%Q) df.

(** [features_df["biomarker"].astype(str).unique().tolist()] *)
Definition biomarkers (df : list edge) : list string :=
  unique (map biomarker df).

(** [sorted(valid_deps)] *)
Definition dependencies (valid : gset string) : list string :=
  sort_values String.leb (elements valid).

(** [groupby("dependency")["importance_score"].transform(lambda x: x / x.max())] *)
Definition group_max (df : list edge) (d : string) : option Q :=
  series_max (map importance_score (group dependency d df)).

Definition renormalize_row (df : list edge) (e : edge) : edge :=
  match group_max df (dependency e) with
  | Some m => with_score e (importance_score e / m)
  | None => e
  end.

Definition renormalize (df : list edge) : list edge :=
  map (renormalize_row df) df.

(** [features_df[features_df["importance_score"] >= EDGE_MIN]] *)
Definition drop_small (df : list edge) : list edge :=
  filter (λ e, (EDGE_MIN <= importance_score e)%Q) df.

(** Row order of [sort_values([key, "importance_score"], ascending=[True, False])]. *)
Definition by_key_then_score (key : edge → string) (e1 e2 : edge) : bool :=
  match String.compare (key e1) (key e2) with
  | Lt => true
  | Gt => false
  | Eq => Qle_bool (importance_score e2) (importance_score e1)
  end.

Definition topk_per_dep (df : list edge) : list edge :=
  groupby_head dependency TOPK_PER_DEP
    (sort_values (by_key_then_score dependency) df).

Definition topk_per_bm (df : list edge) : list edge :=
  groupby_head biomarker TOPK_PER_BM
    (sort_values (by_key_then_score biomarker) df).

(** Lines 79-94: the three reassignments of [features_df], in script order. *)
Definition sparsify (features_df : list edge) : list edge :=
  let features_df := drop_small features_df in
  let features_df := topk_per_dep features_df in
  let features_df := topk_per_bm features_df in
  features_df.

(** Number of edges of a dependency, and of a biomarker, in an edge list. *)
Definition dependency_degree (d : string) (df : list edge) : nat :=
  group_size dependency d df.
Definition biomarker_degree (b : string) (df : list edge) : nat :=
  group_size biomarker b df.

(** *** The graph *)

(** [networkx.Graph]: the attribute dictionary of every node, and for every
    node the weights of the edges to its neighbours. *)
Record Graph := MkGraph {
  node : gmap string (gmap string string);
  adj : gmap string (gmap string Q);
}.

Definition empty_graph : Graph := MkGraph ∅ ∅.

(** [G.add_node(n, **attr)]: a new node gets empty dictionaries; the
    attributes given overwrite the ones already there. *)
Definition add_node (n : string) (attr : gmap string string) (G : Graph)
  : Graph :=
  MkGraph (<[n := attr ∪ default ∅ (node G !! n)]> (node G))
          (match node G !! n with
           | None => <[n := ∅]> (adj G)
           | Some _ => adj G
           end).

Definition add_nodes_from (ns : list string) (attr : gmap string string)
  (G : Graph) : Graph :=
  foldl (λ G n, add_node n attr G) G ns.

(** [G.add_edge(u, v, weight=w)] *)
Definition add_edge (u v : string) (w : Q) (G : Graph) : Graph :=
  let G := add_node u ∅ G in
  let G := add_node v ∅ G in
  MkGraph (node G) (alter (insert u w) v (alter (insert v w) u (adj G))).

(** [G.has_edge(u, v)] *)
Definition has_edge (G : Graph) (u v : string) : Prop :=
  is_Some (adj G !! u ≫= λ nbrs, nbrs !! v).

(** [G[u][v]["weight"]], for an edge that is there. *)
Definition edge_weight (G : Graph) (u v : string) : option Q :=
  adj G !! u ≫= λ nbrs, nbrs !! v.

(** Every node has its adjacency dictionary, and only nodes have one. *)
Definition well_formed (G : Graph) : Prop := dom (adj G) = dom (node G).

(** [G.nodes[n].get("bipartite")] *)
Definition bipartite (G : Graph) (n : string) : option string :=
  node G !! n ≫= λ attr, attr !! "bipartite".

Definition number_of_nodes (G : Graph) : nat := size (node G).

(** Lines 48-66: the filters and the declared node lists. *)
Definition filtered (features_df : list edge) (dependencies_df : list string)
  : list edge :=
  keep_positive (keep_listed (valid_deps dependencies_df) features_df).

(** Lines 100-105: one turn of the edge loop. *)
Definition edge_step (bms : list string) (valid : gset string) (B : Graph)
  (e : edge) : Graph :=
  if bool_decide (biomarker e ∈ bms ∧ dependency e ∈ valid)
  then add_edge (biomarker e) (dependency e) (importance_score e) B
  else B.

(** Lines 48-106. *)
Definition build_graph (features_df : list edge) (dependencies_df : list string)
  : Graph :=
  let valid := valid_deps dependencies_df in
  let features_df := filtered features_df dependencies_df in
  let bms := biomarkers features_df in
  let B := empty_graph in
  let B := add_nodes_from bms {["bipartite" := "biomarker"]} B in
  let B := add_nodes_from (dependencies valid) {["bipartite" := "dependency"]} B in
  let features_df := renormalize features_df in
  let features_df := sparsify features_df in
  foldl (edge_step bms valid) B features_df.

(** *** The community table *)

(** Line 159: [{node: i for i, community in enumerate(partition_sets)
    for node in community}]. *)
Definition partition_of (partition_sets : list (list string))
  : list (string * Z) :=
  foldl (λ d ic, foldl (λ d n, dict_set n ic.1 d) d ic.2) []
        (imap (λ i community, (Z.of_nat i, community)) partition_sets).

(** Lines 146-172, with the community detection of NetworkX as a parameter:
    the rows of [communities.csv], or the exception for an empty graph. *)
Definition communities_csv
  (greedy_modularity_communities : Graph → list (list string)) (G : Graph)
  : exn + list (string * Z) :=
  if bool_decide (number_of_nodes G = 0%nat) then
    inl (ValueError "Loaded object is not a valid non-empty NetworkX Graph.")
  else inr (partition_of (greedy_modularity_communities G)).

(** What the script relies on from NetworkX: the communities returned for a
    graph cover its nodes. *)
Definition covers_nodes (G : Graph) (partition_sets : list (list string))
  : Prop :=
  ∀ n, n ∈ dom (node G) → Exists (λ community, n ∈ community) partition_sets.

End CommunityDetection.

(** ** scripts/network_build.py *)

Module NetworkBuild.
Import Pandas.
Import CommunityDetection.

(** Lines 16-25: dependency labels found in [dependency_map.csv] are
    replaced by their gene symbol. *)
Definition map_dependencies (achid_to_gene : option (gmap string string))
  (features_df : list edge) : list edge :=
  match achid_to_gene with
  | Some m =>
      map (λ e, Edge (biomarker e)
                     (default (dependency e) (m !! dependency e))
                     (importance_score e)) features_df
  | None => features_df
  end.

(** [add_weighted_edges_from]: every triple becomes an edge. *)
Definition add_weighted_edges_from (edges : list edge) (B : Graph) : Graph :=
  foldl (λ B e, add_edge (biomarker e) (dependency e) (importance_score e) B)
        B edges.

(** Lines 29-54. *)
Definition build_graph (achid_to_gene : option (gmap string string))
  (features_df : list edge) (dependencies_df : list string) : Graph :=
  let features_df := map_dependencies achid_to_gene features_df in
  let dependencies := unique dependencies_df in
  let B := empty_graph in
  let biomarkers := unique (map biomarker features_df) in
  let B := add_nodes_from biomarkers {["bipartite" := "biomarker"]} B in
  let B := add_nodes_from dependencies {["bipartite" := "dependency"]} B in
  let features_df :=
    take (Z.to_nat 500000)
      (sort_values (λ a b, Qle_bool (importance_score b) (importance_score a))
                   features_df) in
  add_weighted_edges_from features_df B.

(** Lines 71-78, with [community.best_partition] as a parameter: the rows of
    [community_assignments.csv] are the items of the dictionary it returns. *)
Definition community_assignments_csv
  (best_partition : Graph → list (string * Z)) (B : Graph)
  : list (string * Z) :=
  best_partition B.

End NetworkBuild.

(** ** Concrete inputs used by the examples below *)

Module Demo.
Import Pandas Preprocess.
Import FeatureSelection(Edge).

(** A mutation table with a missing entry, a negative count, a zero and an
    infinite entry. *)
Definition binarize_demo : DataFrame spec_float :=
  Frame (Some "ModelID") ["TP53"; "KRAS"]
    [(Key (Text "ACH-000001"), [S754_nan; S754_finite true 5 (-1)]);
     (Key (Text "ACH-000002"), [S754_zero true; S754_infinity false])].

(** The binary64 numbers 1.0 and 2.5. *)
Definition one : spec_float := S754_finite false 4503599627370496 (-52).
Definition two_and_a_half : spec_float :=
  S754_finite false 5629499534213120 (-51).

(** Two tables with the identifiers {A, B, C} and {B, C, D}. *)
Definition table_abc : DataFrame value :=
  Frame (Some "ModelID") ["TP53"]
    [(Key (Text "A"), [VFloat one]); (Key (Text "B"), [VFloat two_and_a_half]);
     (Key (Text "C"), [VFloat one])].

Definition table_bcd : DataFrame value :=
  Frame (Some "ModelID") ["TP53"; "KRAS"]
    [(Key (Text "B"), [VInt8 1; VInt8 0]); (Key (Text "C"), [VInt8 0; VInt8 0]);
     (Key (Text "D"), [VInt8 1; VInt8 1])].

Definition tables_abc_bcd : list (string * DataFrame value) :=
  [("expr", table_abc); ("mut_dmg", table_bcd)].

(** An expression file, a mutation file without the identifier column, and
    a mutation file whose identifiers are disjoint from the expression
    file's. *)
Definition expression_file : csv :=
  Csv ["ModelID"; "SYDE1 (85360)"]
      [[Text "ACH-000001"; Num one]; [Text "ACH-000002"; Num two_and_a_half]].

Definition mutation_file_without_id : csv :=
  Csv ["Unnamed: 0"; "TP53 (7157)"]
      [[Text "ACH-000001"; Num one]; [Text "ACH-000002"; Num S754_nan]].

Definition mutation_file_other_models : csv :=
  Csv ["ModelID"; "TP53 (7157)"]
      [[Text "ACH-000003"; Num one]; [Text "ACH-000004"; Num (S754_zero false)]].

Definition mutation_file : csv :=
  Csv ["ModelID"; "SYDE1 (85360)"]
      [[Text "ACH-000002"; Num two_and_a_half]; [Text "ACH-000001"; Num S754_nan]].

Definition data_complete : data_dir :=
  DataDir (Some expression_file) (Some mutation_file) None None None.

Definition data_without_id : data_dir :=
  DataDir (Some expression_file) (Some mutation_file_without_id) None None None.

Definition data_disjoint : data_dir :=
  DataDir (Some expression_file) (Some mutation_file_other_models) None None
          None.

(** One biomarker column with the correlations 0.9, -0.85, 0.2 and 0.05
    against four dependency columns. *)
Definition four_deps : list string := ["D1"; "D2"; "D3"; "D4"].

Definition four_corr (b d : string) : Q :=
  if bool_decide (d = "D1") then 0.9
  else if bool_decide (d = "D2") then -0.85
  else if bool_decide (d = "D3") then 0.2
  else 0.05.

(** Three candidate edges between two biomarkers and two dependencies. *)
Definition three_edges : list FeatureSelection.edge :=
  [Edge "B1" "D1" 0.5; Edge "B2" "D1" 0.25; Edge "B1" "D2" 0.9].

Definition two_deps : list string := ["D1"; "D2"].

(** A community detection that answers with two fixed communities. *)
Definition two_communities (G : CommunityDetection.Graph)
  : list (list string) :=
  [["B1"; "D1"; "D2"]; ["B2"]].

End Demo.

(** * Properties *)

Section pandas_facts.
Import Pandas.
Context {A : Type} (key : A → string).

Lemma insert_row_perm (leb : A → A → bool) x l :
  insert_row leb x l ≡ₚ x :: l.
Proof.
  induction l as [|y t IH]; simpl; [done|].
  destruct (leb x y); [done|].
  rewrite IH. apply Permutation_swap.
Qed.

Lemma sort_values_perm (leb : A → A → bool) l : sort_values leb l ≡ₚ l.
Proof.
  induction l as [|x t IH]; simpl; [done|].
  fold (sort_values leb t). by rewrite insert_row_perm, IH.
Qed.

Lemma group_size_cons k r l :
  group_size key k (r :: l) =
  ((if bool_decide (key r = k) then 1 else 0) + group_size key k l)%nat.
Proof.
  unfold group_size, group. rewrite filter_cons.
  case_bool_decide; case_decide; simpl; congruence.
Qed.

Lemma group_size_perm k l1 l2 :
  l1 ≡ₚ l2 → group_size key k l1 = group_size key k l2.
Proof. intros Hp. unfold group_size, group. by rewrite Hp. Qed.

(** After [head_from], a group holds at most what was still allowed. *)
Lemma head_from_bound n seen k l :
  (group_size key k (head_from key n seen l)
   ≤ n - default 0 (seen !! k))%nat.
Proof.
  revert seen. induction l as [|r t IH]; intros seen; simpl.
  - unfold group_size; simpl. lia.
  - specialize (IH (<[key r := S (default 0%nat (seen !! key r))]> seen)).
    destruct (decide (key r = k)) as [Heq|Hne].
    + rewrite Heq in IH |- *. rewrite lookup_insert_eq in IH; simpl in IH.
      destruct (Nat.ltb_spec (default 0%nat (seen !! k)) n).
      * rewrite group_size_cons, bool_decide_eq_true_2 by done. lia.
      * lia.
    + rewrite lookup_insert_ne in IH by done.
      destruct (_ <? _)%nat; [|done].
      rewrite group_size_cons, bool_decide_eq_false_2 by done. done.
Qed.

Lemma groupby_head_bound n k l :
  (group_size key k (groupby_head key n l) ≤ n)%nat.
Proof.
  unfold groupby_head. etrans; [apply head_from_bound|]. lia.
Qed.

Lemma head_from_sublist n seen (l : list A) :
  head_from key n seen l `sublist_of` l.
Proof.
  revert seen. induction l as [|r t IH]; intros seen; simpl; [done|].
  destruct (_ <? _)%nat; [apply sublist_skip | apply sublist_cons]; apply IH.
Qed.

Lemma group_size_sublist k (l1 l2 : list A) :
  l1 `sublist_of` l2 → (group_size key k l1 ≤ group_size key k l2)%nat.
Proof.
  induction 1 as [|x l1 l2 _ IH|x l1 l2 _ IH]; [done|..];
    rewrite ?group_size_cons; lia.
Qed.




Lemma filter_fmap_comm {B} (f : B → A) (P : A → Prop) `{∀ x, Decision (P x)}
  (l : list B) :
  filter P (f <$> l) = f <$> filter (λ x, P (f x)) l.
Proof.
  induction l as [|x l IH]; [done|].
  rewrite fmap_cons, !filter_cons, IH. by case_decide.
Qed.

Lemma filter_Forall_id (P : A → Prop) `{∀ x, Decision (P x)} (l : list A) :
  Forall P l → filter P l = l.
Proof.
  induction 1 as [|x l Hx _ IH]; [done|].
  by rewrite filter_cons_True, IH.
Qed.

Section sorted.
Context (leb : A → A → bool).
Context (leb_total : ∀ x y, leb x y = true ∨ leb y x = true).
Context (leb_trans : ∀ x y z, leb x y = true → leb y z = true → leb x z = true).

Lemma insert_row_sorted x l :
  StronglySorted (λ a b, leb a b = true) l →
  StronglySorted (λ a b, leb a b = true) (insert_row leb x l).
Proof using leb_total leb_trans.
  induction l as [|y t IH]; intros Hs; simpl.
  - repeat constructor.
  - apply StronglySorted_inv in Hs as [Ht Hy].
    destruct (leb x y) eqn:Hxy.
    + constructor; [by constructor|]. constructor; [done|].
      eapply Forall_impl; [exact Hy|]. intros z. by apply leb_trans.
    + constructor; [by apply IH|]. rewrite insert_row_perm.
      constructor; [|done].
      destruct (leb_total x y) as [?|?]; [congruence|done].
Qed.

Lemma sort_values_sorted l :
  StronglySorted (λ a b, leb a b = true) (sort_values leb l).
Proof using leb_total leb_trans.
  induction l as [|x t IH]; simpl; [constructor|].
  by apply insert_row_sorted.
Qed.

End sorted.

End pandas_facts.

Section series_facts.
Import Pandas.

Lemma Qmax_cases (a b : Q) : Qmax a b = a ∨ Qmax a b = b.
Proof.
  unfold Qmax, GenericMinMax.gmax. destruct (a ?= b)%Q; auto.
Qed.

Lemma fold_left_Qmax_elem (t : list Q) (v : Q) : fold_left Qmax t v ∈ v :: t.
Proof.
  revert v. induction t as [|u t IH]; intros v; simpl; [left|].
  specialize (IH (Qmax v u)).
  apply elem_of_cons in IH as [->|IH].
  - destruct (Qmax_cases v u) as [->| ->]; [left|right; left].
  - by do 2 right.
Qed.

Lemma fold_left_Qmax_init (t : list Q) (v : Q) :
  (v <= fold_left Qmax t v)%Q.
Proof.
  revert v. induction t as [|w t IH]; intros v; simpl; [apply Qle_refl|].
  eapply Qle_trans; [apply (Q.le_max_l v w)|apply IH].
Qed.

Lemma fold_left_Qmax_upper (t : list Q) (v u : Q) :
  u ∈ v :: t → (u <= fold_left Qmax t v)%Q.
Proof.
  intros [->|Hu]%elem_of_cons; [apply fold_left_Qmax_init|].
  revert v. induction t as [|w t IH]; intros v; simpl.
  - by apply elem_of_nil in Hu.
  - apply elem_of_cons in Hu as [->|Hu]; [|by apply IH].
    eapply Qle_trans; [apply (Q.le_max_r v w)|apply fold_left_Qmax_init].
Qed.

Lemma series_max_Some (x : list Q) (m : Q) :
  series_max x = Some m → m ∈ x ∧ ∀ u, u ∈ x → (u <= m)%Q.
Proof.
  destruct x as [|v t]; [done|]. intros [= <-]. split.
  - apply fold_left_Qmax_elem.
  - apply fold_left_Qmax_upper.
Qed.

Lemma series_max_nonempty (x : list Q) (u : Q) :
  u ∈ x → ∃ m, series_max x = Some m.
Proof. destruct x; [by intros ?%elem_of_nil|]. simpl. eauto. Qed.

End series_facts.


Section binarize.
Import Preprocess Demo.

Lemma iloc_applymap {C D} (f : C → D) (df : DataFrame C) i j :
  iloc (applymap f df) i j = f <$> iloc df i j.
Proof.
  unfold iloc, applymap; simpl. fmapify. rewrite list_lookup_fmap.
  destruct (rows df !! i) as [[l r]|]; simpl; [|done].
  by rewrite list_lookup_fmap.
Qed.






(** With a positive threshold the zero that replaces NaN is itself below
    the threshold. *)
Example binarize_cnv_loss_positive_threshold :
  iloc (binarize_cnv_loss binarize_demo (S754_finite false 1 (-1)) "CNV_WGS") 0 0
  = Some 1%Z.
Proof. reflexivity. Qed.

End binarize.

Section merger.
Import Pandas Preprocess Demo.
Context {C : Type}.


(** Labels that a frame with distinct labels pairs with one row. *)
Lemma matches_of_label (R : list (label * list C)) (a : label * list C) :
  NoDup (R.*1) →
  (λ b : label * list C, a.1) <$> filter (λ b, b.1 = a.1) R
  = if bool_decide (a.1 ∈ R.*1) then [a.1] else [].
Proof.
  induction R as [|b R IH]; intros Hnd; [done|].
  rewrite fmap_cons in Hnd. apply NoDup_cons in Hnd as [Hb Hnd].
  rewrite filter_cons. specialize (IH Hnd). csimpl.
  destruct (decide (b.1 = a.1)) as [Hba|Hba]; csimpl; rewrite IH.
  - rewrite (bool_decide_eq_false_2 (a.1 ∈ R.*1)) by (by rewrite <- Hba).
    by rewrite bool_decide_eq_true_2 by (apply elem_of_cons; by left).
  - case_bool_decide as H1; case_bool_decide as H2; try done.
    + destruct H2. by right.
    + apply elem_of_cons in H2 as [?|?]; congruence.
Qed.

Lemma index_join_inner (m r m' : DataFrame C) :
  NoDup (index r) → join_inner m r = inr m' →
  index m' = filter (λ l, l ∈ index r) (index m).
Proof.
  unfold join_inner, index. intros Hnd. case_bool_decide; [done|].
  intros [= <-]; simpl. fmapify.
  induction (rows m) as [|a R IH]; [done|]. cbn [flat_map]. fmapify.
  rewrite fmap_app, IH, fmap_cons, filter_cons.
  rewrite <- list_fmap_compose.
  change ((fst ∘ _) <$> ?l) with ((λ b : label * list C, a.1) <$> l).
  rewrite matches_of_label by done.
  case_bool_decide; case_decide; done.
Qed.




End merger.

Section merger_examples.
Import Pandas Preprocess Demo.


(** The tables {A, B, C} and {B, C, D} merge to the rows B and C, the
    colliding column of the right table renamed. *)
Example merge_abc_bcd :
  merge_loop None tables_abc_bcd =
  inr (Some (Frame (Some "ModelID") ["TP53"; "TP53_mut_dmg"; "KRAS"]
         [(Key (Text "B"), [VFloat two_and_a_half; VInt8 1; VInt8 0]);
          (Key (Text "C"), [VFloat one; VInt8 0; VInt8 0])])).
Proof. vm_compute. reflexivity. Qed.

End merger_examples.

Section merger_script.
Import Pandas Preprocess Demo.

Lemma select_sublist {A} (mask : list bool) (l : list A) :
  select mask l `sublist_of` l.
Proof.
  revert l. induction mask as [|b mask IH]; intros [|x l]; simpl; try done.
  - apply sublist_nil_l.
  - destruct b; [by apply sublist_skip | by apply sublist_cons].
Qed.

Lemma columns_drop_metadata_cols {C} (df : DataFrame C) keep c :
  c ∈ columns (drop_metadata_cols df keep) → c ∈ columns df.
Proof.
  unfold drop_metadata_cols. destruct (filter _ _); [done|]. simpl.
  intros Hc. eapply elem_of_sublist; [exact Hc|apply select_sublist].
Qed.

Lemma index_name_drop_metadata_cols {C} (df : DataFrame C) keep :
  index_name (drop_metadata_cols df keep) = index_name df.
Proof. unfold drop_metadata_cols. by destruct (filter _ _). Qed.

(** A file without the identifier column stops [load_omics_table]. *)
Lemma load_omics_table_raises f name :
  "ModelID" ∉ header f → ∃ e, load_omics_table (Some f) name = inl e.
Proof.
  intros Hno. unfold load_omics_table, set_index_on_modelid.
  rewrite bool_decide_eq_false_2.
  - rewrite index_name_drop_metadata_cols. simpl. eauto.
  - intros Hin. by apply columns_drop_metadata_cols in Hin.
Qed.

Lemma load_tables_raises data :
  lacks_modelid data → ∃ e, load_tables data = inl e.
Proof.
  intros (f & Hf & Hno). unfold load_tables.
  destruct data as [e1 e2 e3 e4 e5]; unfold omics_files in Hf; simpl in *.
  destruct (load_omics_table e1 _) as [?|t1] eqn:H1; [eauto|].
  destruct (load_omics_table e2 _) as [?|t2] eqn:H2; [eauto|].
  destruct (load_omics_table e3 _) as [?|t3] eqn:H3; [eauto|].
  destruct (load_omics_table e4 _) as [?|t4] eqn:H4; [eauto|].
  exfalso.
  destruct e1 as [f1|]; simpl in Hf;
    [apply elem_of_cons in Hf as [<-|Hf];
       [destruct (load_omics_table_raises f "Expression" Hno); congruence|]|].
  all: destruct e2 as [f2|]; simpl in Hf;
    [apply elem_of_cons in Hf as [<-|Hf];
       [destruct (load_omics_table_raises f "MutationDamaging" Hno);
        congruence|]|].
  all: destruct e3 as [f3|]; simpl in Hf;
    [apply elem_of_cons in Hf as [<-|Hf];
       [destruct (load_omics_table_raises f "MutationHotspot" Hno);
        congruence|]|].
  all: destruct e4 as [f4|]; simpl in Hf;
    [apply elem_of_cons in Hf as [<-|Hf];
       [destruct (load_omics_table_raises f "CNV_WGS" Hno); congruence|]|].
  all: by apply elem_of_nil in Hf.
Qed.

(** C5. When some input table has no ModelID column, or when the inner join
    of the loaded tables has no row, the script stops with an exception and
    has written no file. *)
Theorem merger_fails_without_output (data : data_dir) :
  lacks_modelid data ∨ joined_empty data →
  ∃ e, run data = (inl e, []).
Proof.
  intros [Hno|(tables & merged & Hload & Hmerge & Hrows)]; unfold run, main.
  - destruct (load_tables_raises data Hno) as [e He].
    exists e. unfold mbind, script_bind, lift. by rewrite He.
  - unfold mbind, script_bind, lift. rewrite Hload.
    destruct tables as [|t tables]; [by eauto|].
    rewrite Hmerge, Hrows. simpl. by eauto.
Qed.

Lemma merger_fails_without_output_witness :
  (∃ e, run data_without_id = (inl e, []))
  ∧ (∃ e, run data_disjoint = (inl e, [])).
Proof.
  split.
  - apply (merger_fails_without_output data_without_id). left.
    exists mutation_file_without_id. split.
    + unfold omics_files; simpl. right. left.
    + apply (bool_decide_unpack _). vm_compute. reflexivity.
  - apply (merger_fails_without_output data_disjoint). right.
    eexists _, _. split; [|split].
    + vm_compute. reflexivity.
    + vm_compute. reflexivity.
    + reflexivity.
Defined.


(** [set_index_on_modelid] raises exactly when the frame has the identifier
    neither as a column nor as the name of its index. *)
Lemma set_index_on_modelid_raises (df : DataFrame cell) (name : string) :
  (∃ e, set_index_on_modelid df name = inl e)
  ↔ ("ModelID" ∉ columns df) ∧ (index_name df ≠ Some "ModelID").
Proof.
  unfold set_index_on_modelid.
  repeat case_bool_decide; split; try (by intros [? ?]); try tauto; eauto.
Qed.

(** A run that succeeds: the two tables share both models, the colliding
    column of the mutation table is renamed, and the merged table is written
    twice. *)
Example run_data_complete :
  run data_complete =
  (inr (),
   [Artifact OUT_FILE
      ["ModelID"; "SYDE1 (85360)"; "SYDE1 (85360)_mut_dmg"]
      [(Key (Text "ACH-000001"), [VFloat one; VInt8 0]);
       (Key (Text "ACH-000002"), [VFloat two_and_a_half; VInt8 1])];
    Artifact "outputs/processed_features.csv"
      ["ModelID"; "SYDE1 (85360)"; "SYDE1 (85360)_mut_dmg"]
      [(Key (Text "ACH-000001"), [VFloat one; VInt8 0]);
       (Key (Text "ACH-000002"), [VFloat two_and_a_half; VInt8 1])]]).
Proof. vm_compute. reflexivity. Qed.

End merger_script.

Section scorer.
Import Pandas FeatureSelection.
Context (corr : string → string → Q) (dep_names : list string).

Lemma larger_first_total x y :
  larger_first x y = true ∨ larger_first y x = true.
Proof.
  unfold larger_first. rewrite !Qle_bool_iff.
  destruct (Qlt_le_dec x.2 y.2) as [?%Qlt_le_weak|?]; auto.
Qed.

Lemma larger_first_trans x y z :
  larger_first x y = true → larger_first y z = true → larger_first x z = true.
Proof.
  unfold larger_first. rewrite !Qle_bool_iff. intros ??. by eapply Qle_trans.
Qed.

Lemma elem_of_magnitudes b p :
  p ∈ magnitudes corr dep_names b ↔ ∃ d, d ∈ dep_names ∧ p = (d, Qabs (corr b d)).
Proof.
  unfold magnitudes, corr_row. fmapify. rewrite <- list_fmap_compose.
  rewrite list_elem_of_fmap. split.
  - intros (d & -> & Hd). by exists d.
  - intros (d & Hd & ->). by exists d.
Qed.

Lemma links_of_unfold b :
  links_of corr dep_names b =
  (λ p, Edge b p.1 p.2)
    <$> filter (λ p, (MIN_ABS_CORR <= p.2)%Q)
          (take TOPK_PER_BIOMARKER (sort_values larger_first (magnitudes corr dep_names b))).
Proof. reflexivity. Qed.

Lemma elem_of_links_of b e :
  e ∈ links_of corr dep_names b →
  biomarker e = b ∧ dependency e ∈ dep_names
  ∧ importance_score e = Qabs (corr b (dependency e))
  ∧ (MIN_ABS_CORR <= importance_score e)%Q.
Proof.
  rewrite links_of_unfold, list_elem_of_fmap.
  intros (p & -> & Hp). apply list_elem_of_filter in Hp as [Hmin Hp].
  eapply elem_of_sublist in Hp; [|apply sublist_take].
  rewrite sort_values_perm in Hp.
  apply elem_of_magnitudes in Hp as (d & Hd & ->). simpl in *. done.
Qed.

Lemma length_links_of b :
  (length (links_of corr dep_names b) ≤ TOPK_PER_BIOMARKER)%nat.
Proof.
  rewrite links_of_unfold, length_fmap.
  etrans; [apply length_filter|]. rewrite length_take. lia.
Qed.

Lemma links_of_sorted b :
  StronglySorted (λ e1 e2, (importance_score e2 <= importance_score e1)%Q)
                 (links_of corr dep_names b).
Proof.
  rewrite links_of_unfold.
  apply (StronglySorted_fmap _ (λ x y, larger_first x y = true)).
  { intros x y. unfold larger_first. by rewrite Qle_bool_iff. }
  pose proof (sort_values_sorted larger_first larger_first_total
                larger_first_trans (magnitudes corr dep_names b)) as Hs.
  rewrite <- (take_drop TOPK_PER_BIOMARKER) in Hs.
  apply StronglySorted_app_1_l in Hs.
  revert Hs. generalize (take TOPK_PER_BIOMARKER
                           (sort_values larger_first (magnitudes corr dep_names b))).
  induction 1 as [|x l Hl IH Hx]; [constructor|].
  rewrite filter_cons. case_decide; [|done].
  constructor; [done|]. apply Forall_forall. intros y Hy.
  apply list_elem_of_filter in Hy as [_ Hy].
  by eapply Forall_forall in Hx.
Qed.

(** A dependency whose magnitude meets the threshold is dropped only when
    [TOPK_PER_BIOMARKER] links at least as strong are kept. *)
Lemma links_of_complete b d :
  d ∈ dep_names → (MIN_ABS_CORR <= Qabs (corr b d))%Q →
  Edge b d (Qabs (corr b d)) ∈ links_of corr dep_names b
  ∨ (length (links_of corr dep_names b) = TOPK_PER_BIOMARKER
     ∧ ∀ e, e ∈ links_of corr dep_names b →
            (Qabs (corr b d) <= importance_score e)%Q).
Proof.
  intros Hd Hmin. rewrite links_of_unfold.
  set (sorted := sort_values larger_first (magnitudes corr dep_names b)).
  assert (Hin : (d, Qabs (corr b d)) ∈ sorted).
  { unfold sorted. rewrite sort_values_perm. apply elem_of_magnitudes. eauto. }
  rewrite <- (take_drop TOPK_PER_BIOMARKER sorted) in Hin.
  apply elem_of_app in Hin as [Hin|Hin].
  - left. apply list_elem_of_fmap. exists (d, Qabs (corr b d)).
    split; [done|]. by apply list_elem_of_filter.
  - right.
    pose proof (sort_values_sorted larger_first larger_first_total
                  larger_first_trans (magnitudes corr dep_names b)) as Hs.
    fold sorted in Hs. rewrite <- (take_drop TOPK_PER_BIOMARKER sorted) in Hs.
    assert (Hge : Forall (λ p, (MIN_ABS_CORR <= p.2)%Q)
                         (take TOPK_PER_BIOMARKER sorted)).
    { apply Forall_forall. intros p Hp.
      pose proof (StronglySorted_app_1_elem_of _ _ _ _ _ Hs Hp Hin) as Hle.
      unfold larger_first in Hle. apply Qle_bool_iff in Hle. simpl in Hle.
      by eapply Qle_trans. }
    rewrite filter_Forall_id by done. split.
    + rewrite length_fmap, length_take.
      assert (length (drop TOPK_PER_BIOMARKER sorted) ≠ 0)%nat.
      { intros Hz. apply nil_length_inv in Hz. rewrite Hz in Hin.
        by apply elem_of_nil in Hin. }
      rewrite length_drop in *. lia.
    + intros e (p & -> & Hp)%list_elem_of_fmap. simpl.
      pose proof (StronglySorted_app_1_elem_of _ _ _ _ _ Hs Hp Hin) as Hle.
      unfold larger_first in Hle. by apply Qle_bool_iff in Hle.
Qed.

(** The batches cover the biomarker columns once, in order. *)
Lemma batches_cover {A B} (h : A → list B) (l : list A) (step : nat) :
  ∀ n s, (length l ≤ (s + n) * step)%nat →
  flat_map (λ i, flat_map h (take step (drop i l)))
           ((λ k, k * step)%nat <$> seq s n)
  = flat_map h (drop (s * step) l).
Proof.
  induction n as [|n IH]; intros s Hlen.
  - simpl. rewrite drop_ge by lia. done.
  - cbn [seq]. rewrite fmap_cons. cbn [flat_map].
    rewrite (IH (S s)) by lia.
    rewrite <- flat_map_app. f_equal.
    replace (S s * step)%nat with (s * step + step)%nat by lia.
    rewrite <- drop_drop. apply take_drop.
Qed.

Lemma rows_out_unbatched (biomarker_names : list string) :
  rows_out corr dep_names biomarker_names
  = flat_map (links_of corr dep_names) biomarker_names.
Proof.
  unfold rows_out, range_step. fmapify.
  rewrite (batches_cover (links_of corr dep_names) biomarker_names BATCH).
  - done.
  - unfold BATCH.
    pose proof (Nat.div_mod_eq (length biomarker_names + 200 - 1) 200).
    pose proof (Nat.mod_upper_bound (length biomarker_names + 200 - 1) 200).
    lia.
Qed.

Lemma elem_of_rows_out (biomarker_names : list string) e :
  e ∈ rows_out corr dep_names biomarker_names →
  biomarker e ∈ biomarker_names ∧ dependency e ∈ dep_names
  ∧ importance_score e = Qabs (corr (biomarker e) (dependency e))
  ∧ (MIN_ABS_CORR <= importance_score e)%Q.
Proof.
  rewrite rows_out_unbatched, list_elem_of_In, in_flat_map.
  intros (b & Hb%list_elem_of_In & He%list_elem_of_In).
  apply elem_of_links_of in He as (<- & ? & ? & ?). done.
Qed.

End scorer.

Section renormalisation.
Import Pandas FeatureSelection.

Lemma divisor_positive (x : list Q) : (0 < divisor x)%Q.
Proof.
  unfold divisor. destruct (series_max x) as [m|]; [|done].
  by case_decide.
Qed.

Lemma MIN_ABS_CORR_positive : (0 < MIN_ABS_CORR)%Q.
Proof. reflexivity. Qed.

(** In a table whose scores all reach [MIN_ABS_CORR], the divisor of every
    group is the maximum of the group. *)
Lemma divisor_is_group_max (out_df : list edge) (e : edge) :
  Forall (λ e, (MIN_ABS_CORR <= importance_score e)%Q) out_df →
  e ∈ out_df →
  ∃ m, series_max (group_scores out_df (dependency e)) = Some m
       ∧ (0 < m)%Q ∧ (importance_score e <= m)%Q
       ∧ divisor (group_scores out_df (dependency e)) = m.
Proof.
  intros Hmin He.
  assert (Hin : importance_score e ∈ group_scores out_df (dependency e)).
  { unfold group_scores, group. fmapify. apply list_elem_of_fmap.
    exists e. split; [done|]. by apply list_elem_of_filter. }
  destruct (series_max_nonempty _ _ Hin) as [m Hm].
  destruct (series_max_Some _ _ Hm) as [_ Hub].
  assert (Hpos : (0 < m)%Q).
  { eapply Qlt_le_trans; [apply MIN_ABS_CORR_positive|].
    eapply Qle_trans; [|apply Hub, Hin].
    by eapply Forall_forall in Hmin. }
  exists m. repeat split; auto.
  unfold divisor. rewrite Hm. by case_decide.
Qed.

Lemma renormalize_unit_interval (out_df : list edge) :
  Forall (λ e, (MIN_ABS_CORR <= importance_score e)%Q) out_df →
  Forall (λ e, (0 < importance_score e)%Q ∧ (importance_score e <= 1)%Q)
         (renormalize out_df).
Proof.
  intros Hmin. unfold renormalize.
  destruct out_df as [|e0 rest] eqn:Heq; [constructor|]. rewrite <- Heq in *.
  clear Heq. fmapify. apply Forall_fmap, Forall_forall. intros e He. simpl.
  destruct (divisor_is_group_max out_df e Hmin He) as (m & _ & Hpos & Hle & ->).
  split.
  - apply Qlt_shift_div_l; [done|]. rewrite Qmult_0_l.
    eapply Qlt_le_trans; [apply MIN_ABS_CORR_positive|].
    by eapply Forall_forall in Hmin.
  - apply Qle_shift_div_r; [done|]. by rewrite Qmult_1_l.
Qed.

Lemma rows_out_reach_threshold corr dep_names biomarker_names :
  Forall (λ e, (MIN_ABS_CORR <= importance_score e)%Q)
         (rows_out corr dep_names biomarker_names).
Proof.
  apply Forall_forall. intros e He.
  by apply elem_of_rows_out in He as (_ & _ & _ & ?).
Qed.

(** C6. Every importance score written to [processed_features.csv] lies in
    the interval (0, 1]. *)
Theorem importance_score_in_unit_interval (corr : string → string → Q)
  (dep_names biomarker_names : list string) :
  Forall (λ e, (0 < importance_score e)%Q ∧ (importance_score e <= 1)%Q)
         (processed_features corr dep_names biomarker_names).
Proof.
  apply renormalize_unit_interval, rows_out_reach_threshold.
Qed.

(** C10. The divisor of the renormalisation is the maximum of the group
    when that is positive and 1 otherwise; it is positive, hence never zero,
    whatever the group.  Every score the scorer retains is a magnitude of at
    least [MIN_ABS_CORR]; in a table of such scores every group has a
    positive maximum and is divided by it, so the substitute 1.0 is never
    used. *)
Theorem renormalization_divisor :
  (∀ x : list Q, (0 < divisor x)%Q ∧ ¬ (divisor x == 0)%Q)
  ∧ (∀ (x : list Q) (m : Q), series_max x = Some m →
       ((0 < m)%Q → divisor x = m) ∧ (¬ (0 < m)%Q → divisor x = 1%Q))
  ∧ (∀ corr dep_names biomarker_names,
       Forall (λ e, (MIN_ABS_CORR <= importance_score e)%Q)
              (rows_out corr dep_names biomarker_names))
  ∧ (∀ out_df e,
       Forall (λ e, (MIN_ABS_CORR <= importance_score e)%Q) out_df →
       e ∈ out_df →
       ∃ m, series_max (group_scores out_df (dependency e)) = Some m
            ∧ (0 < m)%Q
            ∧ divisor (group_scores out_df (dependency e)) = m).
Proof.
  split; [|split; [|split]].
  - intros x. pose proof (divisor_positive x) as Hpos. split; [done|].
    intros Hz. rewrite Hz in Hpos. by apply Qlt_irrefl in Hpos.
  - intros x m Hm. unfold divisor. rewrite Hm. by case_decide.
  - apply rows_out_reach_threshold.
  - intros out_df e Hmin He.
    destruct (divisor_is_group_max out_df e Hmin He) as (m & ? & ? & _ & ?).
    eauto.
Qed.

Lemma renormalization_divisor_witness :
  let out_df := rows_out Demo.four_corr Demo.four_deps ["BM"] in
  ∃ m, series_max (group_scores out_df "D2") = Some m
       ∧ (0 < m)%Q ∧ divisor (group_scores out_df "D2") = m.
Proof.
  intros out_df.
  refine (proj2 (proj2 (proj2 renormalization_divisor))
            out_df (Edge "BM" "D2" 0.85) _ _).
  - apply (bool_decide_unpack _). vm_compute. reflexivity.
  - apply (bool_decide_unpack _). vm_compute. reflexivity.
Defined.

End renormalisation.

Section scorer_claim.
Import Pandas FeatureSelection Demo.

(** The scorer on the demonstration row: three magnitudes reach the
    threshold and are listed largest first. *)
Example rows_out_four :
  rows_out four_corr four_deps ["BM"]
  = [Edge "BM" "D1" 0.9; Edge "BM" "D2" 0.85; Edge "BM" "D3" 0.2].
Proof. vm_compute. reflexivity. Qed.

(** C4, as stated, fails: the score recorded for a negative correlation is
    its magnitude, not the signed value. *)
Lemma scorer_does_not_record_sign :
  ¬ (∀ e, e ∈ rows_out four_corr four_deps ["BM"] →
          (importance_score e == four_corr (biomarker e) (dependency e))%Q).
Proof.
  intros Hsigned.
  specialize (Hsigned (Edge "BM" "D2" 0.85)).
  assert (Hin : Edge "BM" "D2" 0.85 ∈ rows_out four_corr four_deps ["BM"]).
  { rewrite rows_out_four. right. left. }
  apply Hsigned in Hin. vm_compute in Hin. discriminate Hin.
Qed.

(** C4, amended. The emitted rows are those of the biomarker columns taken
    one by one.  For a biomarker column [b] at most [TOPK_PER_BIOMARKER]
    links are kept; each carries the magnitude of the correlation of [b]
    with its dependency, which reaches [MIN_ABS_CORR]; they are listed by
    decreasing magnitude; and a dependency whose magnitude reaches the
    threshold is left out only when [TOPK_PER_BIOMARKER] links of at least
    that magnitude are kept. *)
Theorem scorer_keeps_top_magnitudes (corr : string → string → Q)
  (dep_names biomarker_names : list string) (b : string) :
  rows_out corr dep_names biomarker_names
    = flat_map (links_of corr dep_names) biomarker_names
  ∧ (length (links_of corr dep_names b) ≤ TOPK_PER_BIOMARKER)%nat
  ∧ (∀ e, e ∈ links_of corr dep_names b →
          biomarker e = b ∧ dependency e ∈ dep_names
          ∧ importance_score e = Qabs (corr b (dependency e))
          ∧ (MIN_ABS_CORR <= importance_score e)%Q)
  ∧ StronglySorted (λ e1 e2, (importance_score e2 <= importance_score e1)%Q)
                   (links_of corr dep_names b)
  ∧ (∀ d, d ∈ dep_names → (MIN_ABS_CORR <= Qabs (corr b d))%Q →
          Edge b d (Qabs (corr b d)) ∈ links_of corr dep_names b
          ∨ (length (links_of corr dep_names b) = TOPK_PER_BIOMARKER
             ∧ ∀ e, e ∈ links_of corr dep_names b →
                    (Qabs (corr b d) <= importance_score e)%Q)).
Proof.
  split; [apply rows_out_unbatched|].
  split; [apply length_links_of|].
  split; [apply elem_of_links_of|].
  split; [apply links_of_sorted|].
  apply links_of_complete.
Qed.

Lemma scorer_keeps_top_magnitudes_witness :
  Edge "BM" "D2" (Qabs (four_corr "BM" "D2")) ∈ links_of four_corr four_deps "BM"
  ∨ (length (links_of four_corr four_deps "BM") = TOPK_PER_BIOMARKER
     ∧ ∀ e, e ∈ links_of four_corr four_deps "BM" →
            (Qabs (four_corr "BM" "D2") <= importance_score e)%Q).
Proof.
  refine (proj2 (proj2 (proj2 (proj2
            (scorer_keeps_top_magnitudes four_corr four_deps ["BM"] "BM"))))
            "D2" _ _).
  - apply (bool_decide_unpack _). vm_compute. reflexivity.
  - apply (bool_decide_unpack _). vm_compute. reflexivity.
Defined.

End scorer_claim.

Section row_order.
Import Pandas CommunityDetection.
Context (key : edge → string).

Lemma compare_refl (s : string) : String.compare s s = Eq.
Proof. by apply OrderedTypeEx.String_as_OT.cmp_eq. Qed.

Lemma compare_lt_trans (a b c : string) :
  String.compare a b = Lt → String.compare b c = Lt → String.compare a c = Lt.
Proof.
  intros Hab%OrderedTypeEx.String_as_OT.cmp_lt
         Hbc%OrderedTypeEx.String_as_OT.cmp_lt.
  apply OrderedTypeEx.String_as_OT.cmp_lt.
  by eapply OrderedTypeEx.String_as_OT.lt_trans.
Qed.

Lemma by_key_then_score_total e1 e2 :
  by_key_then_score key e1 e2 = true ∨ by_key_then_score key e2 e1 = true.
Proof.
  unfold by_key_then_score.
  rewrite (String.compare_antisym (key e2) (key e1)).
  destruct (String.compare (key e1) (key e2)); simpl; auto.
  rewrite !Qle_bool_iff.
  destruct (Qlt_le_dec (importance_score e1) (importance_score e2))
    as [?%Qlt_le_weak|?]; auto.
Qed.

Lemma by_key_then_score_trans e1 e2 e3 :
  by_key_then_score key e1 e2 = true → by_key_then_score key e2 e3 = true →
  by_key_then_score key e1 e3 = true.
Proof.
  unfold by_key_then_score.
  destruct (String.compare (key e1) (key e2)) eqn:H12; [| |done];
    destruct (String.compare (key e2) (key e3)) eqn:H23; try done.
  - apply OrderedTypeEx.String_as_OT.cmp_eq in H12, H23.
    rewrite H12, H23, compare_refl, !Qle_bool_iff.
    intros ??. by eapply Qle_trans.
  - apply OrderedTypeEx.String_as_OT.cmp_eq in H12. by rewrite H12, H23.
  - apply OrderedTypeEx.String_as_OT.cmp_eq in H23. by rewrite <- H23, H12.
  - by rewrite (compare_lt_trans _ _ _ H12 H23).
Qed.

(** Within a group, an earlier row of the sorted frame has the larger
    score. *)
Lemma by_key_then_score_same_key e1 e2 :
  key e1 = key e2 → by_key_then_score key e1 e2 = true →
  (importance_score e2 <= importance_score e1)%Q.
Proof.
  unfold by_key_then_score. intros ->. rewrite compare_refl.
  by rewrite Qle_bool_iff.
Qed.


End row_order.

Section renormalised_edges.
Import Pandas CommunityDetection.

Lemma keep_positive_Forall (df : list edge) :
  Forall (λ e, (0 < importance_score e)%Q) (keep_positive df).
Proof.
  apply Forall_forall. intros e He.
  by apply list_elem_of_filter in He as [? _].
Qed.

Lemma elem_of_group (df : list edge) (d : string) (e : edge) :
  e ∈ group dependency d df ↔ e ∈ df ∧ dependency e = d.
Proof. unfold group. rewrite list_elem_of_filter. tauto. Qed.

(** The maximum of the group of a row: a score of the group, positive when
    all scores are, and an upper bound of the group. *)
Lemma group_max_of_row (df : list edge) (e : edge) :
  Forall (λ e, (0 < importance_score e)%Q) df → e ∈ df →
  ∃ m top, group_max df (dependency e) = Some m
           ∧ (0 < m)%Q ∧ (importance_score e <= m)%Q
           ∧ top ∈ df ∧ dependency top = dependency e
           ∧ importance_score top = m.
Proof.
  intros Hpos He. unfold group_max. fmapify.
  assert (Hin : importance_score e
                ∈ importance_score <$> group dependency (dependency e) df).
  { apply list_elem_of_fmap. exists e. split; [done|]. by apply elem_of_group. }
  destruct (series_max_nonempty _ _ Hin) as [m Hm].
  destruct (series_max_Some _ _ Hm) as [Hmem Hub].
  apply list_elem_of_fmap in Hmem as (top & -> & [Htop Hd]%elem_of_group).
  exists (importance_score top), top. repeat split; auto.
  eapply Qlt_le_trans; [|apply Hub, Hin].
  by eapply Forall_forall in Hpos.
Qed.

Lemma dependency_renormalize_row (df : list edge) (e : edge) :
  dependency (renormalize_row df e) = dependency e.
Proof. unfold renormalize_row. by destruct (group_max df _). Qed.


(** A renormalised score is positive and at most 1. *)
Lemma renormalize_row_bounds (df : list edge) (e : edge) :
  Forall (λ e, (0 < importance_score e)%Q) df → e ∈ df →
  (0 < importance_score (renormalize_row df e))%Q
  ∧ (importance_score (renormalize_row df e) <= 1)%Q.
Proof.
  intros Hpos He.
  destruct (group_max_of_row df e Hpos He) as (m & _ & Hm & Hmpos & Hle & _).
  unfold renormalize_row. rewrite Hm. simpl. split.
  - apply Qlt_shift_div_l; [done|]. rewrite Qmult_0_l.
    by eapply Forall_forall in Hpos.
  - apply Qle_shift_div_r; [done|]. by rewrite Qmult_1_l.
Qed.


Lemma elem_of_renormalize (df : list edge) (r : edge) :
  r ∈ renormalize df ↔ ∃ e, r = renormalize_row df e ∧ e ∈ df.
Proof. unfold renormalize. fmapify. apply list_elem_of_fmap. Qed.






(** On scores that are not negative the [EDGE_MIN] filter is a filter on the
    absolute weight. *)
Lemma drop_small_on_magnitudes (df : list edge) :
  Forall (λ e, (0 <= importance_score e)%Q) df →
  drop_small df = filter (λ e, (EDGE_MIN <= Qabs (importance_score e))%Q) df.
Proof.
  unfold drop_small. induction 1 as [|e df He _ IH]; [done|].
  rewrite !filter_cons, IH.
  destruct (decide (EDGE_MIN <= importance_score e)%Q) as [H1|H1];
    destruct (decide (EDGE_MIN <= Qabs (importance_score e))%Q) as [H2|H2];
    try done; rewrite Qabs_pos in H2 by done; done.
Qed.

End renormalised_edges.
Section sparsifier.
Import Pandas CommunityDetection.

Lemma topk_per_dep_bound d df :
  (dependency_degree d (topk_per_dep df) ≤ TOPK_PER_DEP)%nat.
Proof. apply (groupby_head_bound dependency). Qed.

Lemma topk_per_bm_bound b df :
  (biomarker_degree b (topk_per_bm df) ≤ TOPK_PER_BM)%nat.
Proof. apply (groupby_head_bound biomarker). Qed.

Lemma topk_per_bm_sublist df :
  ∃ l, l ≡ₚ df ∧ topk_per_bm df `sublist_of` l.
Proof.
  exists (sort_values (by_key_then_score biomarker) df). split.
  - apply sort_values_perm.
  - apply head_from_sublist.
Qed.

Lemma renormalize_filtered_positive (features_df : list edge)
  (dependencies_df : list string) :
  Forall (λ e, (0 <= importance_score e)%Q)
         (renormalize (filtered features_df dependencies_df)).
Proof.
  apply Forall_forall. intros r (e & -> & He)%elem_of_renormalize.
  apply Qlt_le_weak, renormalize_row_bounds; [|done].
  apply keep_positive_Forall.
Qed.

(** C1. The sparsifier first drops the edges below [EDGE_MIN], then keeps the
    first [TOPK_PER_DEP] edges of every dependency, then the first
    [TOPK_PER_BM] edges of every biomarker; in its result every dependency
    has at most [TOPK_PER_DEP] edges and every biomarker at most
    [TOPK_PER_BM].  On the edges that reach it in the script, which are
    positive, the first filter is a filter on the absolute weight. *)
Theorem sparsify_order_and_caps (df : list edge) :
  sparsify df = topk_per_bm (topk_per_dep (drop_small df))
  ∧ (∀ d, (dependency_degree d (sparsify df) ≤ TOPK_PER_DEP)%nat)
  ∧ (∀ b, (biomarker_degree b (sparsify df) ≤ TOPK_PER_BM)%nat)
  ∧ (∀ features_df dependencies_df,
       let edges := renormalize (filtered features_df dependencies_df) in
       drop_small edges
       = filter (λ e, (EDGE_MIN <= Qabs (importance_score e))%Q) edges).
Proof.
  split; [reflexivity|]. split; [|split].
  - intros d. unfold sparsify.
    destruct (topk_per_bm_sublist (topk_per_dep (drop_small df)))
      as (l & Hperm & Hsub).
    etrans; [apply (group_size_sublist dependency d _ _ Hsub)|].
    unfold dependency_degree.
    rewrite (group_size_perm dependency d _ _ Hperm).
    apply topk_per_dep_bound.
  - intros b. apply topk_per_bm_bound.
  - intros features_df dependencies_df edges.
    apply drop_small_on_magnitudes, renormalize_filtered_positive.
Qed.

(** The three steps on the demonstration edges, renormalised. *)
Example sparsify_three_edges :
  sparsify (renormalize Demo.three_edges)
  = [Edge "B1" "D1" (0.5 / 0.5); Edge "B1" "D2" (0.9 / 0.9);
     Edge "B2" "D1" (0.25 / 0.5)].
Proof. vm_compute. reflexivity. Qed.

End sparsifier.

Section graph_builder.
Import Pandas CommunityDetection.

(** *** NetworkX operations *)

Lemma bipartite_add_node (n : string) (c : string) (G : Graph) (n' : string) :
  bipartite (add_node n {["bipartite" := c]} G) n'
  = if bool_decide (n' = n) then Some c else bipartite G n'.
Proof.
  unfold bipartite, add_node; simpl. case_bool_decide as Hn.
  - subst. rewrite lookup_insert_eq. simpl.
    apply lookup_union_Some_l, lookup_singleton_eq.
  - by rewrite lookup_insert_ne.
Qed.

Lemma bipartite_add_node_plain (n : string) (G : Graph) (n' : string) :
  bipartite (add_node n ∅ G) n' = bipartite G n'.
Proof.
  unfold bipartite, add_node; simpl.
  destruct (decide (n = n')) as [->|Hn]; [|by rewrite lookup_insert_ne].
  rewrite lookup_insert_eq, (left_id_L ∅ (∪)). simpl.
  by destruct (node G !! n').
Qed.

Lemma bipartite_add_nodes_from (ns : list string) (c : string) (G : Graph)
  (n' : string) :
  bipartite (add_nodes_from ns {["bipartite" := c]} G) n'
  = if bool_decide (n' ∈ ns) then Some c else bipartite G n'.
Proof.
  unfold add_nodes_from. revert G.
  induction ns as [|n ns IH]; intros G; cbn [foldl].
  - rewrite bool_decide_eq_false_2; [done|]. apply not_elem_of_nil.
  - rewrite IH, bipartite_add_node.
    rewrite (bool_decide_ext (n' ∈ n :: ns) (n' = n ∨ n' ∈ ns))
      by apply elem_of_cons.
    rewrite bool_decide_or. by repeat case_bool_decide.
Qed.

Lemma bipartite_add_edge (u v : string) (w : Q) (G : Graph) (n' : string) :
  bipartite (add_edge u v w G) n' = bipartite G n'.
Proof.
  unfold add_edge.
  change (bipartite (add_node v ∅ (add_node u ∅ G)) n' = bipartite G n').
  by rewrite !bipartite_add_node_plain.
Qed.






(** *** The edge loop *)


Lemma elem_of_dependencies (valid : gset string) (n : string) :
  n ∈ dependencies valid ↔ n ∈ valid.
Proof.
  unfold dependencies. by rewrite sort_values_perm, elem_of_elements.
Qed.






(** The older script has no guard: an edge whose dependency is not listed
    is added all the same, to a node without a class. *)
Example network_build_is_unguarded :
  let B := NetworkBuild.build_graph None [Edge "B1" "X" 1] ["D1"] in
  has_edge B "B1" "X" ∧ bipartite B "X" = None.
Proof. split; vm_compute; eauto. Qed.

End graph_builder.

Section python_dict.
Import Pandas.
Context {V : Type}.

Lemma elem_of_dict_set_keys (k : string) (v : V) (d : list (string * V)) k' :
  k' ∈ (dict_set k v d).*1 ↔ k' = k ∨ k' ∈ d.*1.
Proof.
  induction d as [|[k0 v0] d IH]; simpl.
  - rewrite list_elem_of_singleton, elem_of_nil. tauto.
  - case_bool_decide as Hk; csimpl; rewrite !elem_of_cons, ?IH.
    + subst. tauto.
    + tauto.
Qed.

Lemma dict_set_NoDup (k : string) (v : V) (d : list (string * V)) :
  NoDup d.*1 → NoDup (dict_set k v d).*1.
Proof.
  induction d as [|[k0 v0] d IH]; simpl; intros Hnd.
  - apply NoDup_singleton.
  - case_bool_decide as Hk; csimpl; [done|].
    csimpl in Hnd. apply NoDup_cons in Hnd as [Hk0 Hnd].
    apply NoDup_cons. split; [|by apply IH].
    rewrite elem_of_dict_set_keys. intros [?|?]; [congruence|done].
Qed.

Lemma elem_of_dict_set (k : string) (v : V) (d : list (string * V)) p :
  p ∈ dict_set k v d → p.2 = v ∨ p ∈ d.
Proof.
  induction d as [|[k0 v0] d IH]; simpl.
  - intros ->%list_elem_of_singleton. by left.
  - case_bool_decide as Hk.
    + intros [->|?]%elem_of_cons; [by left|right; by right].
    + intros [->|[?|?]%IH]%elem_of_cons; [right; left|by left|right; by right].
Qed.

Lemma NoDup_keys_unique (d : list (string * V)) k v1 v2 :
  NoDup d.*1 → (k, v1) ∈ d → (k, v2) ∈ d → v1 = v2.
Proof.
  intros Hnd H1 H2.
  apply (elem_of_list_to_map (M := gmap string)) in H1, H2; [|done..].
  congruence.
Qed.

End python_dict.

Section partitioner.
Import Pandas CommunityDetection.

(** The dictionary after one community has been entered under id [i]. *)
Lemma enter_community (i : Z) (community : list string) (d : list (string * Z)) :
  let d' := foldl (λ d n, dict_set n i d) d community in
  (NoDup d.*1 → NoDup d'.*1)
  ∧ (∀ n, n ∈ d'.*1 ↔ n ∈ community ∨ n ∈ d.*1)
  ∧ (∀ p, p ∈ d' → p.2 = i ∨ p ∈ d).
Proof.
  revert d. induction community as [|n c IH]; intros d; simpl.
  - split; [done|]. split; [|by auto]. intros n. rewrite elem_of_nil. tauto.
  - destruct (IH (dict_set n i d)) as (Hnd & Hkeys & Hvals).
    split; [|split].
    + intros H. by apply Hnd, dict_set_NoDup.
    + intros n'. rewrite Hkeys, elem_of_dict_set_keys, elem_of_cons. tauto.
    + intros p [?|[?|?]%elem_of_dict_set]%Hvals; auto.
Qed.

Lemma enter_communities (l : list (Z * list string)) (d : list (string * Z)) :
  let d' := foldl (λ d ic, foldl (λ d n, dict_set n ic.1 d) d ic.2) d l in
  (NoDup d.*1 → NoDup d'.*1)
  ∧ (∀ n, n ∈ d'.*1 ↔ Exists (λ ic, n ∈ ic.2) l ∨ n ∈ d.*1)
  ∧ (∀ p, p ∈ d' → Exists (λ ic, p.2 = ic.1) l ∨ p ∈ d).
Proof.
  revert d. induction l as [|[i c] l IH]; intros d; simpl.
  - split; [done|]. split; [|by auto]. intros n. rewrite Exists_nil. tauto.
  - destruct (IH (foldl (λ d n, dict_set n i d) d c)) as (Hnd & Hkeys & Hvals).
    destruct (enter_community i c d) as (Hnd1 & Hkeys1 & Hvals1).
    split; [|split].
    + intros H. by apply Hnd, Hnd1.
    + intros n. rewrite Hkeys, Hkeys1, Exists_cons. simpl. tauto.
    + intros p [?|[?|?]%Hvals1]%Hvals; rewrite Exists_cons; simpl; auto.
Qed.

Lemma partition_of_spec (partition_sets : list (list string)) :
  NoDup (partition_of partition_sets).*1
  ∧ (∀ n, n ∈ (partition_of partition_sets).*1
          ↔ Exists (λ community, n ∈ community) partition_sets)
  ∧ (∀ n i, (n, i) ∈ partition_of partition_sets → (0 ≤ i)%Z).
Proof.
  unfold partition_of.
  destruct (enter_communities
              (imap (λ i community, (Z.of_nat i, community)) partition_sets) [])
    as (Hnd & Hkeys & Hvals).
  split; [|split].
  - apply Hnd, NoDup_nil_2.
  - intros n. rewrite Hkeys. csimpl. rewrite elem_of_nil, !Exists_exists.
    split.
    + intros [(ic & (j & c & -> & Hc)%elem_of_lookup_imap & Hn)|[]].
      exists c. split; [|done]. by eapply list_elem_of_lookup_2.
    + intros (c & [j Hj]%list_elem_of_lookup_1 & Hn). left.
      exists (Z.of_nat j, c). split; [|done].
      by apply (elem_of_lookup_imap_2 (λ i community, (Z.of_nat i, community))).
  - intros n i [H|H]%Hvals; [|by apply elem_of_nil in H].
    apply Exists_exists in H as (ic & (j & c & -> & _)%elem_of_lookup_imap & Hi).
    simpl in Hi. lia.
Qed.

(** C7. Given communities that cover the nodes of the graph, as NetworkX
    returns them, the script stops only on a graph without nodes; otherwise
    the table it writes lists no node twice and gives every node of the
    graph one community id, a non-negative integer. *)
Theorem community_table_is_total
  (greedy_modularity_communities : Graph → list (list string)) (G : Graph) :
  covers_nodes G (greedy_modularity_communities G) →
  match communities_csv greedy_modularity_communities G with
  | inl _ => number_of_nodes G = 0%nat
  | inr table =>
      NoDup table.*1
      ∧ ∀ n, n ∈ dom (node G) →
             ∃ i, (n, i) ∈ table ∧ (0 ≤ i)%Z
                  ∧ ∀ j, (n, j) ∈ table → j = i
  end.
Proof.
  intros Hcover. unfold communities_csv. case_bool_decide; [done|].
  destruct (partition_of_spec (greedy_modularity_communities G))
    as (Hnd & Hkeys & Hvals).
  split; [done|]. intros n Hn.
  apply Hcover, Hkeys, list_elem_of_fmap in Hn as ([n' i] & -> & Hin).
  exists i. split; [done|]. split; [by eapply Hvals|].
  intros j Hj. by eapply NoDup_keys_unique.
Qed.

Lemma community_table_is_total_witness :
  let G := build_graph Demo.three_edges Demo.two_deps in
  match communities_csv Demo.two_communities G with
  | inl _ => number_of_nodes G = 0%nat
  | inr table =>
      NoDup table.*1
      ∧ ∀ n, n ∈ dom (node G) →
             ∃ i, (n, i) ∈ table ∧ (0 ≤ i)%Z
                  ∧ ∀ j, (n, j) ∈ table → j = i
  end.
Proof.
  intros G. apply (community_table_is_total Demo.two_communities G).
  intros n Hn. apply elem_of_elements in Hn. revert n Hn.
  apply Forall_forall, (bool_decide_unpack _). vm_compute. reflexivity.
Defined.

(** The table written for the demonstration graph. *)
Example communities_csv_demo :
  communities_csv Demo.two_communities
    (build_graph Demo.three_edges Demo.two_deps)
  = inr [("B1", 0%Z); ("D1", 0%Z); ("D2", 0%Z); ("B2", 1%Z)].
Proof. vm_compute. reflexivity. Qed.

End partitioner.

(** * Further properties of the scripts *)

Section unique_values.
Import Pandas.

Lemma unique_from_spec (seen : gset string) (l : list string) :
  NoDup (unique_from seen l)
  ∧ (∀ x, x ∈ unique_from seen l ↔ x ∈ l ∧ x ∉ seen)
  ∧ unique_from seen l `sublist_of` l.
Proof.
  revert seen. induction l as [|y t IH]; intros seen; simpl.
  - split; [constructor|]. split; [|done]. intros x. rewrite elem_of_nil. tauto.
  - case_bool_decide as Hy.
    + destruct (IH seen) as (Hnd & Hin & Hsub). split; [done|].
      split; [|by apply sublist_cons].
      intros x. rewrite Hin, elem_of_cons. split; [tauto|].
      intros [[->|?] ?]; [done|tauto].
    + destruct (IH ({[y]} ∪ seen)) as (Hnd & Hin & Hsub). split; [|split].
      * constructor; [|done]. rewrite Hin. set_solver.
      * intros x. rewrite !elem_of_cons, Hin. split.
        -- intros [->|[? ?]]; [tauto|]. split; [tauto|set_solver].
        -- intros [[->|?] ?]; [tauto|]. destruct (decide (x = y)); [tauto|].
           right. split; [done|set_solver].
      * by apply sublist_skip.
Qed.




End unique_values.

Section group_head.
Import Pandas.
Context {A : Type} (key : A → string).

(** [head] keeps of every group as many rows as the group has, up to what is
    still allowed. *)
Lemma head_from_count n seen k (l : list A) :
  group_size key k (head_from key n seen l)
  = (n - default 0 (seen !! k)) `min` group_size key k l.
Proof.
  revert seen. induction l as [|r t IH]; intros seen; simpl.
  - unfold group_size; simpl. lia.
  - specialize (IH (<[key r := S (default 0%nat (seen !! key r))]> seen)).
    rewrite (group_size_cons key k r t).
    destruct (decide (key r = k)) as [Heq|Hne].
    + rewrite Heq in IH |- *. rewrite lookup_insert_eq in IH; simpl in IH.
      rewrite bool_decide_eq_true_2 by done.
      destruct (Nat.ltb_spec (default 0%nat (seen !! k)) n).
      * rewrite group_size_cons, bool_decide_eq_true_2 by done. lia.
      * lia.
    + rewrite lookup_insert_ne in IH by done.
      rewrite bool_decide_eq_false_2 by done.
      destruct (_ <? _)%nat; [|done].
      rewrite group_size_cons, bool_decide_eq_false_2 by done. done.
Qed.

(** A group that is full gets no further row. *)
Lemma head_from_full n seen (l : list A) x :
  (n ≤ default 0 (seen !! key x))%nat → x ∉ head_from key n seen l.
Proof.
  intros Hfull Hx.
  assert (group_size key (key x) (head_from key n seen l) = 0)%nat as Hz
    by (rewrite head_from_count; lia).
  unfold group_size, group in Hz. apply nil_length_inv in Hz.
  eapply (filter_nil_not_elem_of _ _ x) in Hz; done.
Qed.

(** A frame in which every group fits is returned whole. *)
Lemma head_from_all n seen (l : list A) :
  (∀ k, (default 0 (seen !! k) + group_size key k l ≤ n)%nat) →
  head_from key n seen l = l.
Proof.
  revert seen. induction l as [|r t IH]; intros seen Hfit; [done|]. simpl.
  pose proof (Hfit (key r)) as Hr.
  rewrite group_size_cons, bool_decide_eq_true_2 in Hr by done.
  destruct (Nat.ltb_spec (default 0%nat (seen !! key r)) n); [|lia].
  f_equal. apply IH. intros k. specialize (Hfit k).
  rewrite group_size_cons in Hfit.
  destruct (decide (key r = k)) as [Heq|Hne].
  - rewrite Heq in *. rewrite lookup_insert_eq. simpl.
    rewrite bool_decide_eq_true_2 in Hfit by done. lia.
  - rewrite lookup_insert_ne by done.
    rewrite bool_decide_eq_false_2 in Hfit by done. lia.
Qed.

Section ordered.
Context (R : A → A → Prop).

(** In an ordered frame the rows [head] keeps of a group come before the
    rows of the group it drops. *)
Lemma head_from_prefix n seen (l : list A) e e' :
  StronglySorted R l →
  e ∈ head_from key n seen l → e' ∈ l → e' ∉ head_from key n seen l →
  key e = key e' → R e e'.
Proof.
  intros Hs. revert seen.
  induction Hs as [|r t Ht IH Hr]; intros seen He He' Hdrop Hkey.
  { by apply elem_of_nil in He'. }
  simpl in He, Hdrop.
  destruct (Nat.ltb_spec (default 0%nat (seen !! key r)) n) as [Hlt|Hge].
  - apply not_elem_of_cons in Hdrop as [Hne Hdrop].
    apply elem_of_cons in He' as [->|He']; [done|].
    apply elem_of_cons in He as [->|He].
    + by eapply Forall_forall in Hr.
    + by eapply IH.
  - apply elem_of_cons in He' as [->|He']; [|by eapply IH].
    exfalso. eapply (head_from_full n _ t e); [|exact He].
    rewrite Hkey, lookup_insert_eq. simpl. lia.
Qed.

End ordered.

End group_head.

Section truncation.
Import Pandas CommunityDetection.

Lemma truncation_spec (key : edge → string) (n : nat) (df : list edge) :
  let kept := groupby_head key n (sort_values (by_key_then_score key) df) in
  (∀ k, group_size key k kept = n `min` group_size key k df)
  ∧ kept ⊆+ df
  ∧ (∀ e e', e ∈ kept → e' ∈ df → e' ∉ kept → key e = key e' →
             (importance_score e' <= importance_score e)%Q)
  ∧ ((∀ k, (group_size key k df ≤ n)%nat) → kept ≡ₚ df).
Proof.
  intros kept. unfold kept, groupby_head.
  set (S := sort_values (by_key_then_score key) df).
  assert (HS : S ≡ₚ df) by apply sort_values_perm.
  split; [|split; [|split]].
  - intros k. rewrite head_from_count, lookup_empty. simpl.
    rewrite (group_size_perm key k S df HS). lia.
  - rewrite <- HS. apply sublist_submseteq, head_from_sublist.
  - intros e e' He He' Hdrop Hkey.
    apply (by_key_then_score_same_key key); [done|].
    eapply (head_from_prefix key (λ a b, by_key_then_score key a b = true));
      [|exact He| |exact Hdrop|exact Hkey].
    + apply sort_values_sorted.
      * apply by_key_then_score_total.
      * apply by_key_then_score_trans.
    + by rewrite HS.
  - intros Hfit. rewrite head_from_all; [done|].
    intros k. rewrite lookup_empty. simpl.
    rewrite (group_size_perm key k S df HS). apply Hfit.
Qed.

(** X2. The per-dependency and the per-biomarker truncation keep of every group
    its [TOPK] strongest edges: the number kept is the smaller of the cap and
    the size of the group, no kept edge is weaker than a dropped edge of the
    same group, and a list in which every group fits under the cap is only
    reordered. *)
Theorem truncations_keep_the_strongest (df : list edge) :
  (∀ d, dependency_degree d (topk_per_dep df)
        = TOPK_PER_DEP `min` dependency_degree d df)
  ∧ (∀ b, biomarker_degree b (topk_per_bm df)
          = TOPK_PER_BM `min` biomarker_degree b df)
  ∧ topk_per_dep df ⊆+ df ∧ topk_per_bm df ⊆+ df
  ∧ (∀ e e', e ∈ topk_per_dep df → e' ∈ df → e' ∉ topk_per_dep df →
             dependency e = dependency e' →
             (importance_score e' <= importance_score e)%Q)
  ∧ (∀ e e', e ∈ topk_per_bm df → e' ∈ df → e' ∉ topk_per_bm df →
             biomarker e = biomarker e' →
             (importance_score e' <= importance_score e)%Q)
  ∧ ((∀ d, (dependency_degree d df ≤ TOPK_PER_DEP)%nat) →
     topk_per_dep df ≡ₚ df)
  ∧ ((∀ b, (biomarker_degree b df ≤ TOPK_PER_BM)%nat) →
     topk_per_bm df ≡ₚ df).
Proof.
  destruct (truncation_spec dependency TOPK_PER_DEP df) as (H1 & H2 & H3 & H4).
  destruct (truncation_spec biomarker TOPK_PER_BM df) as (H5 & H6 & H7 & H8).
  repeat split; done.
Qed.

Lemma truncations_keep_the_strongest_witness :
  topk_per_dep Demo.three_edges ≡ₚ Demo.three_edges
  ∧ topk_per_bm Demo.three_edges ≡ₚ Demo.three_edges.
Proof.
  pose proof (truncations_keep_the_strongest Demo.three_edges)
    as (_ & _ & _ & _ & _ & _ & Hdep & Hbm).
  split.
  - apply Hdep. intros d. unfold dependency_degree, group_size, TOPK_PER_DEP.
    etrans; [apply length_filter|]. simpl. lia.
  - apply Hbm. intros b. unfold biomarker_degree, group_size, TOPK_PER_BM.
    etrans; [apply length_filter|]. simpl. lia.
Defined.

End truncation.

Section column_selection.
Import Pandas Preprocess.

Lemma select_lookup {C} (mask : list bool) (l : list C) (p : nat) :
  mask !! p = Some true → select mask l !! rank mask p = l !! p.
Proof.
  unfold rank. revert l p. induction mask as [|b m IH]; intros l p Hp.
  { by rewrite lookup_nil in Hp. }
  destruct p as [|q]; simpl in Hp.
  - injection Hp as ->. by destruct l.
  - destruct l as [|x t]; [by destruct b|].
    simpl. rewrite filter_cons. destruct b; simpl; by apply IH.
Qed.

Lemma elem_of_select {C} (mask : list bool) (l : list C) (x : C) :
  x ∈ select mask l ↔ ∃ p, l !! p = Some x ∧ mask !! p = Some true.
Proof.
  revert l. induction mask as [|b m IH]; intros l; simpl.
  { rewrite elem_of_nil. split; [done|]. intros (p & _ & Hp).
    by rewrite lookup_nil in Hp. }
  destruct l as [|y t].
  { rewrite elem_of_nil. split; [done|]. intros (p & Hp & _).
    by rewrite lookup_nil in Hp. }
  destruct b; rewrite ?elem_of_cons, IH; split.
  - intros [->|(p & ? & ?)]; [by exists 0%nat|by exists (S p)].
  - intros ([|p] & Hl & Hm); simpl in *; [left; congruence|right; eauto].
  - intros (p & ? & ?). by exists (S p).
  - intros ([|p] & Hl & Hm); simpl in *; [congruence|eauto].
Qed.

Lemma select_filter (P : string → Prop) `{∀ c, Decision (P c)}
  (cols : list string) :
  select ((λ c, bool_decide (P c)) <$> cols) cols = filter P cols.
Proof.
  induction cols as [|c cols IH]; [done|]. csimpl.
  rewrite filter_cons, IH. case_bool_decide; by case_decide.
Qed.

Lemma list_find_NoDup (cols : list string) (p : nat) (c : string) :
  NoDup cols → cols !! p = Some c →
  list_find (λ c', c' = c) cols = Some (p, c).
Proof.
  intros Hnd Hp. apply list_find_Some. split; [done|]. split; [done|].
  intros j y Hj Hlt ->.
  pose proof (NoDup_lookup _ _ _ _ Hnd Hj Hp). lia.
Qed.

(** Under distinct column labels, a selected column keeps its cells. *)
Lemma at_column_select_columns {C} (mask : list bool) (df : DataFrame C)
  (i p : nat) (c : string) :
  NoDup (columns df) → columns df !! p = Some c → mask !! p = Some true →
  at_column (select_columns mask df) i c = at_column df i c.
Proof.
  intros Hnd Hp Hm. unfold at_column.
  rewrite (list_find_NoDup (columns df) p c Hnd Hp).
  assert (Hp' : select mask (columns df) !! rank mask p = Some c)
    by (by rewrite select_lookup).
  rewrite (list_find_NoDup (columns (select_columns mask df)) (rank mask p) c);
    [|by eapply sublist_NoDup; [|apply select_sublist]|done].
  unfold iloc, select_columns; simpl. fmapify. rewrite list_lookup_fmap.
  destruct (rows df !! i) as [r|]; simpl; [|done].
  by apply select_lookup.
Qed.

End column_selection.

Section column_dropping.
Import Pandas Preprocess.

Lemma filter_iff_in {A} (P Q : A → Prop) `{∀ x, Decision (P x)}
  `{∀ x, Decision (Q x)} (l : list A) :
  (∀ x, x ∈ l → P x ↔ Q x) → filter P l = filter Q l.
Proof.
  induction l as [|x l IH]; intros Hext; [done|].
  rewrite !filter_cons, IH by (intros y Hy; apply Hext; by right).
  pose proof (Hext x (list_elem_of_here _ _)).
  repeat case_decide; tauto || done.
Qed.

Lemma index_select_columns {C} (mask : list bool) (df : DataFrame C) :
  index (select_columns mask df) = index df.
Proof.
  unfold index, select_columns; simpl. fmapify.
  by rewrite <- list_fmap_compose.
Qed.

Lemma drop_metadata_cols_spec {C} (df : DataFrame C) (keep : gset string) :
  columns (drop_metadata_cols df keep)
    = filter (λ c, ¬ (c ∈ META_COLS_CANDIDATES ∧ c ∉ keep)) (columns df)
  ∧ index (drop_metadata_cols df keep) = index df
  ∧ index_name (drop_metadata_cols df keep) = index_name df
  ∧ (NoDup (columns df) →
     ∀ i c, c ∈ columns (drop_metadata_cols df keep) →
            at_column (drop_metadata_cols df keep) i c = at_column df i c).
Proof.
  unfold drop_metadata_cols.
  destruct (filter (λ c, c ∈ META_COLS_CANDIDATES ∧ c ∉ keep) (columns df))
    as [|d ds] eqn:Hdrop.
  - split; [|by auto]. symmetry. apply filter_Forall_id, Forall_forall.
    intros c Hc Hmeta.
    exact (filter_nil_not_elem_of _ _ c Hdrop Hmeta Hc).
  - rewrite <- Hdrop. clear d ds Hdrop.
    set (P := λ c, c ∈ META_COLS_CANDIDATES ∧ c ∉ keep).
    assert (Hcols : columns (drop_columns (filter P (columns df)) df)
                    = filter (λ c, ¬ P c) (columns df)).
    { unfold drop_columns, select_columns; simpl. fmapify.
      rewrite (select_filter (λ c, c ∉ filter P (columns df))).
      apply filter_iff_in. intros c Hc. rewrite list_elem_of_filter. tauto. }
    split; [done|]. split; [apply index_select_columns|]. split; [done|].
    intros Hnd i c Hc. rewrite Hcols in Hc.
    apply list_elem_of_filter in Hc as [HnP [p Hp]%list_elem_of_lookup_1].
    unfold drop_columns. eapply at_column_select_columns; [done|exact Hp|].
    fmapify. rewrite list_lookup_fmap, Hp. simpl. f_equal.
    apply bool_decide_eq_true_2. rewrite list_elem_of_filter. tauto.
Qed.

(** X3. [drop_metadata_cols] removes the metadata columns that are not to be
    kept and nothing else: the other columns stay, in order and with their
    cells, and so do the row labels. *)
Theorem drop_metadata_cols_keeps_the_rest {C} (df : DataFrame C)
  (keep : gset string) :
  columns (drop_metadata_cols df keep)
    = filter (λ c, ¬ (c ∈ META_COLS_CANDIDATES ∧ c ∉ keep)) (columns df)
  ∧ index (drop_metadata_cols df keep) = index df
  ∧ index_name (drop_metadata_cols df keep) = index_name df
  ∧ (NoDup (columns df) →
     ∀ i c, c ∈ columns (drop_metadata_cols df keep) →
            at_column (drop_metadata_cols df keep) i c = at_column df i c).
Proof. apply drop_metadata_cols_spec. Qed.

Lemma drop_metadata_cols_keeps_the_rest_witness :
  at_column (drop_metadata_cols (read_csv Demo.mutation_file_without_id) ∅)
            0 "TP53 (7157)"
  = at_column (read_csv Demo.mutation_file_without_id) 0 "TP53 (7157)".
Proof.
  refine (proj2 (proj2 (proj2 (drop_metadata_cols_keeps_the_rest
            (read_csv Demo.mutation_file_without_id) ∅))) _ 0%nat
            "TP53 (7157)" _).
  - apply (bool_decide_unpack _). vm_compute. reflexivity.
  - apply (bool_decide_unpack _). vm_compute. reflexivity.
Defined.

(** A column is entirely NaN exactly when no row has a number in it. *)
Lemma all_nan_false (rows : list (label * list spec_float)) (p : nat) :
  forallb (λ r, from_option isna true (r.2 !! p)) rows = false
  ↔ ∃ i r x, rows !! i = Some r ∧ r.2 !! p = Some x ∧ isna x = false.
Proof.
  induction rows as [|r rows IH]; simpl.
  - split; [done|]. intros (i & r & x & Hi & _). by rewrite lookup_nil in Hi.
  - rewrite andb_false_iff, IH. split.
    + intros [Hr|(i & r' & x & Hi & Hx)].
      * destruct (r.2 !! p) as [x|] eqn:Hx; [|done].
        exists 0%nat, r, x. split; [done|]. split; [done|]. exact Hr.
      * exists (S i), r', x. tauto.
    + intros ([|i] & r' & x & Hi & Hp & Hx); simpl in Hi.
      * injection Hi as ->. left. by rewrite Hp.
      * right. exists i, r', x. tauto.
Qed.

Lemma at_column_applymap {C D} (f : C → D) (df : DataFrame C) i c :
  at_column (applymap f df) i c = f <$> at_column df i c.
Proof.
  unfold at_column. simpl.
  destruct (list_find _ (columns df)) as [[p ?]|]; [|done].
  apply iloc_applymap.
Qed.

(** X4. [coerce_numeric_frame] keeps exactly the columns in which some row has a
    number, each with its cells coerced, and keeps the row labels. *)
Theorem coerce_numeric_frame_keeps_numeric_columns (df : DataFrame cell)
  (dataset_name : string) :
  let numeric := coerce_numeric_frame df dataset_name in
  (∀ c, c ∈ columns numeric ↔
        ∃ p i x, columns df !! p = Some c ∧ iloc df i p = Some x
                 ∧ isna (to_numeric x) = false)
  ∧ index numeric = index df
  ∧ (NoDup (columns df) →
     ∀ i c, c ∈ columns numeric →
            at_column numeric i c = to_numeric <$> at_column df i c).
Proof.
  intros numeric. unfold numeric, coerce_numeric_frame.
  set (num := applymap to_numeric df).
  set (all_nan := λ j : nat,
         forallb (λ r, from_option isna true (r.2 !! j)) (rows num)).
  assert (Hnan : ∀ p, all_nan p = false
            ↔ ∃ i x, iloc df i p = Some x ∧ isna (to_numeric x) = false).
  { intros p. unfold all_nan. rewrite all_nan_false. split.
    - intros (i & r & x & Hi & Hp & Hx).
      assert (Hil : iloc num i p = Some x) by (unfold iloc; by rewrite Hi).
      unfold num in Hil. rewrite iloc_applymap in Hil.
      destruct (iloc df i p) as [y|] eqn:Hy; [|done]. injection Hil as <-.
      by exists i, y.
    - intros (i & y & Hy & Hx).
      assert (Hil : iloc num i p = Some (to_numeric y))
        by (unfold num; by rewrite iloc_applymap, Hy).
      unfold iloc in Hil. destruct (rows num !! i) as [r|] eqn:Hr; [|done].
      exists i, r, (to_numeric y). done. }
  assert (Hidx : index num = index df).
  { unfold index, num, applymap; simpl. fmapify.
    by rewrite <- list_fmap_compose. }
  assert (Hmask : ∀ p c, columns df !! p = Some c →
            (negb <$> (all_nan <$> seq 0 (length (columns df)))) !! p
            = Some (negb (all_nan p))).
  { intros p c Hp. rewrite !list_lookup_fmap, lookup_seq_lt; [done|].
    by eapply lookup_lt_Some. }
  fmapify. change (columns num) with (columns df).
  destruct (existsb id (all_nan <$> seq 0 (length (columns df)))) eqn:Hany.
  - split; [|split].
    + intros c. simpl. rewrite elem_of_select. split.
      * intros (p & Hp & Hm). rewrite (Hmask p c Hp) in Hm.
        injection Hm as Hm. apply negb_true_iff, Hnan in Hm
          as (i & x & ? & ?). by exists p, i, x.
      * intros (p & i & x & Hp & Hi & Hx). exists p. split; [done|].
        rewrite (Hmask p c Hp). f_equal. apply negb_true_iff, Hnan. eauto.
    + by rewrite index_select_columns.
    + intros Hnd i c Hc. simpl in Hc.
      apply elem_of_select in Hc as (p & Hp & Hm).
      rewrite (at_column_select_columns _ num i p c); [|done..].
      apply at_column_applymap.
  - split; [|split; [done|]].
    + intros c. simpl. split.
      * intros [p Hp]%list_elem_of_lookup_1.
        assert (all_nan p = false) as (i & x & ? & ?)%Hnan.
        { destruct (all_nan p) eqn:Hp'; [|done].
          assert (existsb id (all_nan <$> seq 0 (length (columns df))) = true);
            [|congruence].
          apply existsb_exists. exists true. split; [|done].
          apply list_elem_of_In, list_elem_of_fmap. exists p.
          split; [done|]. apply elem_of_seq.
          apply lookup_lt_Some in Hp. lia. }
        by exists p, i, x.
      * intros (p & _ & _ & Hp & _). by eapply list_elem_of_lookup_2.
    + intros _ i c _. apply at_column_applymap.
Qed.

Lemma coerce_numeric_frame_keeps_numeric_columns_witness :
  at_column (coerce_numeric_frame (read_csv Demo.mutation_file_without_id) "M")
            1 "TP53 (7157)"
  = to_numeric
      <$> at_column (read_csv Demo.mutation_file_without_id) 1 "TP53 (7157)".
Proof.
  refine (proj2 (proj2 (coerce_numeric_frame_keeps_numeric_columns
            (read_csv Demo.mutation_file_without_id) "M")) _ 1%nat
            "TP53 (7157)" _).
  - apply (bool_decide_unpack _). vm_compute. reflexivity.
  - apply (bool_decide_unpack _). vm_compute. reflexivity.
Defined.

(** The text column of the demonstration file is dropped, the numeric one
    stays. *)
Example coerce_numeric_frame_demo :
  columns (coerce_numeric_frame (read_csv Demo.mutation_file_without_id) "M")
  = ["TP53 (7157)"].
Proof. vm_compute. reflexivity. Qed.

End column_dropping.

Section loading.
Import Pandas Preprocess.

Lemma delete_NoDup_filter (cols : list string) (p : nat) (c : string) :
  NoDup cols → cols !! p = Some c → delete p cols = filter (λ c', c' ≠ c) cols.
Proof.
  revert p. induction cols as [|x cols IH]; intros p Hnd Hp.
  { by rewrite lookup_nil in Hp. }
  apply NoDup_cons in Hnd as [Hx Hnd]. rewrite filter_cons.
  destruct p as [|p]; simpl in *.
  - injection Hp as ->. rewrite decide_False by (intros H; by apply H).
    symmetry. apply filter_Forall_id, Forall_forall. by intros y Hy ->.
  - rewrite decide_True.
    + f_equal. by apply IH.
    + intros ->. apply Hx. by eapply list_elem_of_lookup_2.
Qed.

(** Under distinct column labels, [set_index] leaves the cells of the other
    columns where they are. *)
Lemma at_column_set_index (name : string) (df : DataFrame cell) (i : nat)
  (c : string) :
  NoDup (columns df) → c ∈ columns df → c ≠ name →
  at_column (set_index name df) i c = at_column df i c.
Proof.
  intros Hnd [q Hq]%list_elem_of_lookup_1 Hne. unfold set_index.
  destruct (list_find _ (columns df)) as [[p n]|] eqn:Hfind; [|done].
  apply list_find_Some in Hfind as (Hp & -> & _).
  assert (q ≠ p) by (intros ->; congruence).
  set (q' := if decide (q < p)%nat then q else pred q).
  assert (Hq' : ∀ {B} (l : list B), delete p l !! q' = l !! q).
  { intros B l. rewrite list_lookup_delete. unfold q'.
    destruct (decide (q < p)%nat).
    - by rewrite decide_True.
    - rewrite decide_False by lia. f_equal. lia. }
  unfold at_column.
  rewrite (list_find_NoDup (columns df) q c Hnd Hq). simpl.
  rewrite (list_find_NoDup (delete p (columns df)) q' c);
    [|by eapply sublist_NoDup; [|apply sublist_delete]|by rewrite Hq'].
  unfold iloc; simpl. fmapify. rewrite list_lookup_fmap.
  destruct (rows df !! i) as [r|]; simpl; [|done]. apply Hq'.
Qed.

(** X5. [load_omics_table] answers [None] for an absent file, raises for a file
    without the identifier column, and otherwise returns the table indexed
    by the identifier: the metadata columns and the identifier column are
    gone, the other cells are those of the file. *)
Theorem load_omics_table_indexes_by_modelid (f : csv) (dataset_name : string) :
  load_omics_table None dataset_name = inr None
  ∧ ("ModelID" ∉ header f →
     ∃ e, load_omics_table (Some f) dataset_name = inl e)
  ∧ ("ModelID" ∈ header f → NoDup (header f) →
     ∃ df, load_omics_table (Some f) dataset_name = inr (Some df)
           ∧ index_name df = Some "ModelID"
           ∧ columns df
             = filter (λ c, c ≠ "ModelID" ∧ c ∉ META_COLS_CANDIDATES) (header f)
           ∧ index df
             = imap (λ i _, Key (default (Num S754_nan)
                                   (at_column (read_csv f) i "ModelID")))
                    (records f)
           ∧ (∀ i c, c ∈ columns df →
                     at_column df i c = at_column (read_csv f) i c)).
Proof.
  split; [done|]. split; [apply load_omics_table_raises|].
  intros Hid Hnd. unfold load_omics_table, set_index_on_modelid.
  set (raw := read_csv f).
  destruct (drop_metadata_cols_spec raw {["ModelID"]})
    as (Hcols & Hidx & _ & Hcells).
  specialize (Hcells Hnd).
  set (d := drop_metadata_cols raw {["ModelID"]}) in *.
  assert (Hnd' : NoDup (columns d)) by (rewrite Hcols; by apply NoDup_filter).
  assert (Hid' : "ModelID" ∈ columns d).
  { rewrite Hcols. apply list_elem_of_filter. split; [set_solver|done]. }
  rewrite bool_decide_eq_true_2 by done.
  eexists. split; [done|].
  destruct (list_elem_of_lookup_1 _ _ Hid') as [p Hp].
  pose proof (list_find_NoDup (columns d) p "ModelID" Hnd' Hp) as Hfind.
  unfold set_index. rewrite Hfind. simpl.
  split; [done|]. split; [|split].
  - rewrite (delete_NoDup_filter _ p "ModelID") by done.
    rewrite Hcols, list_filter_filter. apply filter_iff_in.
    intros c _. split.
    + intros [? Hk]. split; [done|]. intros Hm. apply Hk. set_solver.
    + intros [? ?]. split; [done|]. tauto.
  - unfold index; simpl. fmapify. rewrite <- list_fmap_compose.
    apply list_eq. intros i. rewrite list_lookup_fmap, list_lookup_imap.
    assert (Hlen : index d !! i = index raw !! i) by (by rewrite Hidx).
    unfold index in Hlen. fmapify. rewrite !list_lookup_fmap in Hlen.
    change (rows raw) with (imap (λ i r, (Pos i, r)) (records f)) in Hlen.
    rewrite list_lookup_imap in Hlen.
    pose proof (Hcells i "ModelID" Hid') as Hcell.
    unfold at_column in Hcell at 1. rewrite Hfind in Hcell.
    unfold iloc in Hcell.
    destruct (rows d !! i) as [r|]; destruct (records f !! i) as [rec|];
      simpl in *; try done.
    by rewrite Hcell.
  - intros i c Hc.
    assert (Hc' : c ∈ columns d ∧ c ≠ "ModelID").
    { rewrite (delete_NoDup_filter _ p "ModelID") in Hc by done.
      apply list_elem_of_filter in Hc. tauto. }
    destruct Hc' as [Hcd Hne].
    pose proof (at_column_set_index "ModelID" d i c Hnd' Hcd Hne) as Hset.
    unfold set_index in Hset. rewrite Hfind in Hset. simpl in Hset.
    rewrite Hset. by apply Hcells.
Qed.

Lemma load_omics_table_indexes_by_modelid_witness :
  ∃ df, load_omics_table (Some Demo.expression_file) "Expression"
        = inr (Some df)
        ∧ index_name df = Some "ModelID"
        ∧ columns df
          = filter (λ c, c ≠ "ModelID" ∧ c ∉ META_COLS_CANDIDATES)
                   (header Demo.expression_file)
        ∧ index df
          = imap (λ i _, Key (default (Num S754_nan)
                    (at_column (read_csv Demo.expression_file) i "ModelID")))
                 (records Demo.expression_file)
        ∧ (∀ i c, c ∈ columns df →
                  at_column df i c
                  = at_column (read_csv Demo.expression_file) i c).
Proof.
  refine (proj2 (proj2 (load_omics_table_indexes_by_modelid
            Demo.expression_file "Expression")) _ _).
  - apply (bool_decide_unpack _). vm_compute. reflexivity.
  - apply (bool_decide_unpack _). vm_compute. reflexivity.
Defined.

End loading.

Section merge_steps.
Import Pandas Preprocess.
Context {C : Type}.

(** The name a column of the right table has after [suffix_overlaps]. *)
Lemma columns_suffix_overlaps (m df : DataFrame C) (name : string) :
  columns (suffix_overlaps m df name)
  = (λ c, if bool_decide (c ∈ columns m) then c +:+ "_" +:+ name else c)
      <$> columns df.
Proof.
  unfold suffix_overlaps. case_bool_decide as Hov; simpl; fmapify.
  - rewrite <- (list_fmap_id (columns df)) at 1.
    apply list_fmap_ext. intros i c Hc.
    rewrite bool_decide_eq_false_2; [done|].
    apply list_elem_of_lookup_2 in Hc. set_solver.
  - apply list_fmap_ext. intros i c Hc.
    apply list_elem_of_lookup_2 in Hc.
    rewrite (bool_decide_ext (c ∈ list_to_set (columns m)
                                  ∩ list_to_set (columns df))
               (c ∈ columns m)); [done|]. set_solver.
Qed.

(** X6. One turn of the merge loop raises exactly when a colliding column, once
    suffixed, meets a column the merged table already has; otherwise the
    columns of the merged table are followed by those of the new table, the
    colliding ones suffixed. *)
Theorem merge_step_fails_on_suffixed_collision (m df : DataFrame C)
  (name : string) :
  ((∃ e, join_inner m (suffix_overlaps m df name) = inl e)
   ↔ ∃ c, c ∈ columns m ∧ c ∈ columns df
          ∧ (c +:+ "_" +:+ name) ∈ columns m)
  ∧ (∀ m', join_inner m (suffix_overlaps m df name) = inr m' →
       columns m'
       = columns m
         ++ ((λ c, if bool_decide (c ∈ columns m)
                   then c +:+ "_" +:+ name else c) <$> columns df)).
Proof.
  unfold join_inner. rewrite columns_suffix_overlaps. split.
  - case_bool_decide as Hex; rewrite Exists_fmap, Exists_exists in Hex; split.
    + intros _. destruct Hex as (c & Hc & Hin). exists c. simpl in Hin.
      case_bool_decide; [done|]. done.
    + eauto.
    + by intros [? ?].
    + intros (c & Hm & Hd & Hsuf). destruct Hex. exists c.
      split; [done|]. simpl. by rewrite bool_decide_eq_true_2.
  - intros m'. case_bool_decide; [done|]. by intros [= <-].
Qed.

(** The tables of a merge that succeeds lose no column. *)
Lemma merge_loop_columns (m : DataFrame C) (rest : list (string * DataFrame C))
  (merged : DataFrame C) :
  merge_loop (Some m) rest = inr (Some merged) →
  columns m `prefix_of` columns merged
  ∧ length (columns merged)
    = (length (columns m)
       + sum_list ((λ t, length (columns t.2)) <$> rest))%nat.
Proof.
  revert m. induction rest as [|[name df] rest IH]; intros m; cbn [merge_loop].
  - intros [= <-]. split; [done|]. simpl. lia.
  - destruct (join_inner m (suffix_overlaps m df name)) as [e|m'] eqn:Hj;
      [done|].
    intros [Hpre Hlen]%IH.
    unfold join_inner in Hj. case_bool_decide; [done|].
    injection Hj as <-. simpl in Hpre, Hlen.
    assert (length (columns (suffix_overlaps m df name)) = length (columns df))
      as Hsuf by (by rewrite columns_suffix_overlaps, length_fmap).
    rewrite length_app, Hsuf in Hlen. rewrite fmap_cons. simpl sum_list.
    split; [|simpl; lia]. etrans; [|exact Hpre]. by apply prefix_app_r.
Qed.

(** X7. A merge that succeeds returns a table that starts with the columns of the
    first table and has as many columns as all tables together. *)
Theorem merge_loses_no_column (tables : list (string * DataFrame C))
  (merged : DataFrame C) :
  merge_loop None tables = inr (Some merged) →
  length (columns merged) = sum_list ((λ t, length (columns t.2)) <$> tables)
  ∧ ∃ t rest, tables = t :: rest ∧ columns t.2 `prefix_of` columns merged.
Proof.
  destruct tables as [|[name df] rest]; [done|]. simpl.
  intros [Hpre Hlen]%merge_loop_columns. split; [done|].
  by exists (name, df), rest.
Qed.

(** X8. The overlap printed for two tables does not depend on their order, and
    for tables with distinct labels it is the number of rows of their inner
    join. *)
Theorem report_overlap_counts_joined_rows (A B : DataFrame C) :
  report_overlap (index A) (index B) = report_overlap (index B) (index A)
  ∧ (NoDup (index A) → NoDup (index B) →
     ∀ m, join_inner A B = inr m →
          shape0 m = report_overlap (index A) (index B)).
Proof.
  unfold report_overlap. split.
  - apply Permutation_length, NoDup_Permutation; try apply NoDup_remove_dups.
    intros l. rewrite !elem_of_remove_dups, !list_elem_of_filter. tauto.
  - intros HA HB m Hj. apply index_join_inner in Hj; [|done].
    unfold shape0. rewrite <- (length_fmap fst (rows m)).
    change (fst <$> rows m) with (index m). rewrite Hj.
    apply Permutation_length, NoDup_Permutation.
    + by apply NoDup_filter.
    + apply NoDup_remove_dups.
    + intros l. by rewrite elem_of_remove_dups.
Qed.

End merge_steps.

Section merge_steps_examples.
Import Pandas Preprocess Demo.

Lemma merge_step_fails_on_suffixed_collision_witness :
  ∃ m', join_inner table_abc (suffix_overlaps table_abc table_bcd "mut_dmg")
        = inr m'
        ∧ columns m' = ["TP53"; "TP53_mut_dmg"; "KRAS"].
Proof.
  eexists. split; [vm_compute; reflexivity|].
  refine (proj2 (merge_step_fails_on_suffixed_collision table_abc table_bcd
                   "mut_dmg") _ _).
  vm_compute. reflexivity.
Defined.

Lemma merge_loses_no_column_witness :
  ∃ merged,
    merge_loop None tables_abc_bcd = inr (Some merged)
    ∧ length (columns merged)
      = sum_list ((λ t, length (columns t.2)) <$> tables_abc_bcd).
Proof.
  eexists. split; [vm_compute; reflexivity|].
  refine (proj1 (merge_loses_no_column tables_abc_bcd _ _)).
  vm_compute. reflexivity.
Defined.

Lemma report_overlap_counts_joined_rows_witness :
  ∃ m, join_inner table_abc (suffix_overlaps table_abc table_bcd "mut_dmg")
       = inr m
       ∧ shape0 m
         = report_overlap (index table_abc)
             (index (suffix_overlaps table_abc table_bcd "mut_dmg")).
Proof.
  eexists. split; [vm_compute; reflexivity|].
  refine (proj2 (report_overlap_counts_joined_rows table_abc
                   (suffix_overlaps table_abc table_bcd "mut_dmg")) _ _ _ _).
  - apply (bool_decide_unpack _). vm_compute. reflexivity.
  - apply (bool_decide_unpack _). vm_compute. reflexivity.
  - vm_compute. reflexivity.
Defined.

End merge_steps_examples.

Section script_outcomes.
Import Pandas Preprocess.

(** A file with the identifier column and no record loads as a table
    without rows. *)
Lemma load_omics_table_no_record (o : option csv) (name : string) :
  (∀ f, o = Some f → "ModelID" ∈ header f ∧ records f = []) →
  ∃ t, load_omics_table o name = inr t ∧ ∀ df, t = Some df → rows df = [].
Proof.
  destruct o as [f|]; [|by exists None]. intros Hf.
  destruct (Hf f eq_refl) as [Hid Hrec].
  unfold load_omics_table, set_index_on_modelid.
  assert (Hrows : rows (drop_metadata_cols (read_csv f) {["ModelID"]}) = []).
  { unfold drop_metadata_cols, read_csv. rewrite Hrec. simpl.
    by destruct (filter _ _). }
  rewrite bool_decide_eq_true_2.
  - eexists. split; [done|]. intros df [= <-]. unfold set_index.
    destruct (list_find _ _) as [[p ?]|]; simpl; by rewrite Hrows.
  - destruct (drop_metadata_cols_spec (read_csv f) {["ModelID"]}) as [-> _].
    apply list_elem_of_filter. split; [set_solver|done].
Qed.

Lemma rows_coerce_numeric_frame_nil (df : DataFrame cell) (name : string) :
  rows df = [] → rows (coerce_numeric_frame df name) = [].
Proof.
  intros Hr. unfold coerce_numeric_frame.
  destruct (existsb _ _); simpl; by rewrite Hr.
Qed.

Lemma usable_none (l : list (string * option (DataFrame value))) :
  Forall (λ p, ∀ df, p.2 = Some df → rows df = []) l → usable l = [].
Proof.
  induction 1 as [|[name [df|]] l Hp _ IH]; simpl; try done.
  unfold shape0. by rewrite (Hp df eq_refl).
Qed.

Lemma elem_of_omics_files (data : data_dir) (f : csv) :
  f ∈ omics_files data
  ↔ expression_csv data = Some f ∨ mutation_damaging_csv data = Some f
    ∨ mutation_hotspot_csv data = Some f ∨ cnv_wgs_csv data = Some f.
Proof.
  unfold omics_files. rewrite list_elem_of_omap. split.
  - intros (o & Ho & Hf). unfold id in Hf. subst o.
    rewrite !elem_of_cons, elem_of_nil in Ho. naive_solver.
  - intros H. exists (Some f). split; [|done].
    rewrite !elem_of_cons. naive_solver.
Qed.

(** X9. When every omics file is absent or holds no record, the script stops
    with its no-usable-dataset error and writes nothing. *)
Theorem no_usable_dataset_stops_the_script (data : data_dir) :
  (∀ f, f ∈ omics_files data → "ModelID" ∈ header f ∧ records f = []) →
  run data = (inl no_usable_datasets, []).
Proof.
  intros Hfiles.
  assert (Hload : load_tables data = inr []).
  { unfold load_tables.
    destruct (load_omics_table_no_record (expression_csv data) "Expression")
      as (t1 & -> & H1).
    { intros f Hf. apply Hfiles, elem_of_omics_files. auto. }
    destruct (load_omics_table_no_record (mutation_damaging_csv data)
                "MutationDamaging") as (t2 & -> & H2).
    { intros f Hf. apply Hfiles, elem_of_omics_files. auto. }
    destruct (load_omics_table_no_record (mutation_hotspot_csv data)
                "MutationHotspot") as (t3 & -> & H3).
    { intros f Hf. apply Hfiles, elem_of_omics_files. auto. }
    destruct (load_omics_table_no_record (cnv_wgs_csv data) "CNV_WGS")
      as (t4 & -> & H4).
    { intros f Hf. apply Hfiles, elem_of_omics_files. auto. }
    f_equal. apply usable_none.
    repeat constructor; simpl; intros df Hdf.
    - destruct t1 as [d|]; [|done]. injection Hdf as <-. simpl.
      by rewrite rows_coerce_numeric_frame_nil by by apply H1.
    - destruct t2 as [d|]; [|done]. injection Hdf as <-. simpl.
      by rewrite rows_coerce_numeric_frame_nil by by apply H2.
    - destruct t3 as [d|]; [|done]. injection Hdf as <-. simpl.
      by rewrite rows_coerce_numeric_frame_nil by by apply H3.
    - destruct t4 as [d|]; [|done]. injection Hdf as <-. simpl.
      by rewrite rows_coerce_numeric_frame_nil by by apply H4. }
  unfold run, main, mbind, script_bind, lift. by rewrite Hload.
Qed.

Lemma no_usable_dataset_stops_the_script_witness :
  run (DataDir None (Some (Csv ["ModelID"; "TP53 (7157)"] [])) None None None)
  = (inl no_usable_datasets, []).
Proof.
  apply no_usable_dataset_stops_the_script.
  intros f Hf. apply elem_of_omics_files in Hf. simpl in Hf.
  destruct Hf as [?|[[= <-]|[?|?]]]; try done.
  split; [|done]. simpl. left.
Defined.





End script_outcomes.

(** ** The graphs as NetworkX objects *)

Section graph_shape.
Import Pandas CommunityDetection NetworkBuild.

Lemma empty_graph_well_formed : well_formed empty_graph.
Proof. unfold well_formed, empty_graph. simpl. by rewrite !dom_empty_L. Qed.

Lemma add_node_well_formed (n : string) (attr : gmap string string)
  (G : Graph) :
  well_formed G →
  well_formed (add_node n attr G)
  ∧ dom (node (add_node n attr G)) = {[n]} ∪ dom (node G).
Proof.
  unfold well_formed, add_node; simpl. intros Hwf.
  rewrite dom_insert_L. split; [|done].
  destruct (node G !! n) eqn:Hn.
  - apply elem_of_dom_2 in Hn. set_solver.
  - by rewrite dom_insert_L, Hwf.
Qed.

Lemma edge_weight_add_node (n : string) (attr : gmap string string)
  (G : Graph) (u v : string) :
  well_formed G → edge_weight (add_node n attr G) u v = edge_weight G u v.
Proof.
  unfold well_formed, edge_weight, add_node; simpl. intros Hwf.
  destruct (node G !! n) eqn:Hn; [done|].
  destruct (decide (n = u)) as [->|Hne]; [|by rewrite lookup_insert_ne].
  rewrite lookup_insert_eq. simpl. rewrite lookup_empty.
  apply not_elem_of_dom in Hn. rewrite <- Hwf in Hn.
  apply not_elem_of_dom in Hn. by rewrite Hn.
Qed.

Lemma add_nodes_from_well_formed (ns : list string)
  (attr : gmap string string) (G : Graph) :
  well_formed G →
  well_formed (add_nodes_from ns attr G)
  ∧ dom (node (add_nodes_from ns attr G)) = list_to_set ns ∪ dom (node G)
  ∧ ∀ u v, edge_weight (add_nodes_from ns attr G) u v = edge_weight G u v.
Proof.
  unfold add_nodes_from. revert G.
  induction ns as [|n ns IH]; intros G Hwf; cbn [foldl].
  - split; [done|]. split; [set_solver|done].
  - destruct (add_node_well_formed n attr G Hwf) as [Hwf' Hdom].
    destruct (IH _ Hwf') as (? & Hd & Hw). split; [done|]. split.
    + rewrite Hd, Hdom. set_solver.
    + intros u v. by rewrite Hw, edge_weight_add_node.
Qed.

Lemma add_edge_well_formed (a b : string) (w : Q) (G : Graph) :
  well_formed G →
  well_formed (add_edge a b w G)
  ∧ dom (node (add_edge a b w G)) = {[a; b]} ∪ dom (node G).
Proof.
  intros Hwf.
  destruct (add_node_well_formed a ∅ G Hwf) as [Hwf1 Hdom1].
  destruct (add_node_well_formed b ∅ _ Hwf1) as [Hwf2 Hdom2].
  unfold well_formed, add_edge. cbn [adj node].
  rewrite !dom_alter_L. split; [done|]. rewrite Hdom2, Hdom1. set_solver.
Qed.

(** [add_edge] sets the weight in both directions and touches no other
    pair. *)
Lemma edge_weight_add_edge (a b : string) (w : Q) (G : Graph) (u v : string) :
  well_formed G →
  edge_weight (add_edge a b w G) u v
  = if bool_decide ((u = a ∧ v = b) ∨ (u = b ∧ v = a)) then Some w
    else edge_weight G u v.
Proof.
  intros Hwf.
  destruct (add_node_well_formed a ∅ G Hwf) as [Hwf1 Hdom1].
  destruct (add_node_well_formed b ∅ _ Hwf1) as [Hwf2 Hdom2].
  rewrite <- (edge_weight_add_node a ∅ G u v Hwf),
          <- (edge_weight_add_node b ∅ _ u v Hwf1).
  unfold add_edge, edge_weight. cbn [adj].
  assert (is_Some (adj (add_node b ∅ (add_node a ∅ G)) !! a)) as [na Ha].
  { apply elem_of_dom. rewrite Hwf2, Hdom2, Hdom1. set_solver. }
  assert (is_Some (adj (add_node b ∅ (add_node a ∅ G)) !! b)) as [nb Hb].
  { apply elem_of_dom. rewrite Hwf2, Hdom2. set_solver. }
  revert Ha Hb. generalize (adj (add_node b ∅ (add_node a ∅ G))).
  intros m Ha Hb. rewrite !lookup_alter.
  repeat case_decide; simplify_eq; rewrite ?Ha, ?Hb; simpl;
    rewrite ?lookup_insert_eq; try done;
    by rewrite ?lookup_insert_ne by naive_solver.
Qed.

(** What [add_weighted_edges_from] leaves behind. *)
Lemma add_weighted_edges_from_spec (rows : list edge) (B : Graph) :
  well_formed B →
  let G := add_weighted_edges_from rows B in
  well_formed G
  ∧ dom (node G)
    = list_to_set (biomarker <$> rows) ∪ list_to_set (dependency <$> rows)
      ∪ dom (node B)
  ∧ (∀ u v, has_edge B u v → has_edge G u v)
  ∧ (∀ e, e ∈ rows → has_edge G (biomarker e) (dependency e))
  ∧ (∀ u v w, edge_weight G u v = Some w →
       edge_weight B u v = Some w
       ∨ ∃ e, e ∈ rows ∧ importance_score e = w
              ∧ ((u = biomarker e ∧ v = dependency e)
                 ∨ (u = dependency e ∧ v = biomarker e)))
  ∧ ((∀ u v, edge_weight B u v = edge_weight B v u) →
     ∀ u v, edge_weight G u v = edge_weight G v u).
Proof.
  unfold add_weighted_edges_from. revert B.
  induction rows as [|e rows IH]; intros B Hwf; cbn [foldl].
  - split; [done|]. split; [set_solver|]. split; [done|].
    split; [by intros ? ?%elem_of_nil|]. split; [by left|done].
  - destruct (add_edge_well_formed (biomarker e) (dependency e)
                (importance_score e) B Hwf) as [Hwf' Hdom'].
    destruct (IH _ Hwf') as (HwfG & Hdom & Hmono & Hall & Hfrom & Hsym).
    split; [done|]. split; [|split; [|split; [|split]]].
    + rewrite Hdom, Hdom', !fmap_cons. set_solver.
    + intros u v Huv. apply Hmono. unfold has_edge in *.
      change (is_Some (edge_weight (add_edge (biomarker e) (dependency e)
                                      (importance_score e) B) u v)).
      rewrite edge_weight_add_edge by done. by case_bool_decide.
    + intros e' [->|He']%elem_of_cons; [|by apply Hall].
      apply Hmono.
      change (is_Some (edge_weight (add_edge (biomarker e) (dependency e)
                         (importance_score e) B) (biomarker e) (dependency e))).
      rewrite edge_weight_add_edge, bool_decide_eq_true_2 by tauto. done.
    + intros u v w [Hw|(e' & He' & Hs & Huv)]%Hfrom.
      * rewrite edge_weight_add_edge in Hw by done.
        case_bool_decide as Hcase; [|by left].
        injection Hw as <-. right. exists e. rewrite elem_of_cons. tauto.
      * right. exists e'. rewrite elem_of_cons. tauto.
    + intros HsymB. apply Hsym. intros u v.
      rewrite !edge_weight_add_edge by done.
      rewrite (bool_decide_ext
                 ((v = biomarker e ∧ u = dependency e)
                  ∨ (v = dependency e ∧ u = biomarker e))
                 ((u = biomarker e ∧ v = dependency e)
                  ∨ (u = dependency e ∧ v = biomarker e))) by tauto.
      case_bool_decide; [done|apply HsymB].
Qed.

(** The edge loop of [community_detection.py] adds the rows that pass its
    guard. *)
Lemma edge_loop_guarded (bms : list string) (valid : gset string)
  (rows : list edge) (B : Graph) :
  foldl (edge_step bms valid) B rows
  = add_weighted_edges_from
      (filter (λ e, biomarker e ∈ bms ∧ dependency e ∈ valid) rows) B.
Proof.
  unfold add_weighted_edges_from. revert B.
  induction rows as [|e rows IH]; intros B; [done|]. cbn [foldl].
  rewrite filter_cons. unfold edge_step at 2.
  case_bool_decide as Hg.
  - rewrite decide_True by done. cbn [foldl]. apply IH.
  - rewrite decide_False by done. apply IH.
Qed.


Lemma biomarker_renormalize_row (df : list edge) (e : edge) :
  biomarker (renormalize_row df e) = biomarker e.
Proof. unfold renormalize_row. by destruct (group_max _ _). Qed.


(** The nodes of the graph built by [community_detection.py]. *)
Lemma build_graph_nodes (features_df : list edge)
  (dependencies_df : list string) :
  let G := CommunityDetection.build_graph features_df dependencies_df in
  dom (node G)
  = list_to_set (biomarkers (filtered features_df dependencies_df))
    ∪ valid_deps dependencies_df
  ∧ well_formed G
  ∧ (∀ u v, edge_weight G u v = edge_weight G v u)
  ∧ (number_of_nodes G = 0%nat ↔ dependencies_df = []).
Proof.
  intros G. unfold G, CommunityDetection.build_graph.
  rewrite edge_loop_guarded.
  set (bms := biomarkers (filtered features_df dependencies_df)).
  set (valid := valid_deps dependencies_df).
  set (rows := filter _ _).
  destruct (add_nodes_from_well_formed bms {["bipartite" := "biomarker"]}
              empty_graph empty_graph_well_formed) as (Hwf1 & Hd1 & Hw1).
  destruct (add_nodes_from_well_formed (dependencies valid)
              {["bipartite" := "dependency"]} _ Hwf1) as (Hwf2 & Hd2 & Hw2).
  destruct (add_weighted_edges_from_spec rows _ Hwf2)
    as (Hwf & Hdom & _ & _ & _ & Hsym).
  assert (Hnodes : dom (node (add_weighted_edges_from rows
            (add_nodes_from (dependencies valid) {["bipartite" := "dependency"]}
               (add_nodes_from bms {["bipartite" := "biomarker"]} empty_graph))))
          = list_to_set bms ∪ valid).
  { rewrite Hdom, Hd2, Hd1. simpl. rewrite dom_empty_L.
    apply set_eq. intros n.
    rewrite !elem_of_union, !elem_of_list_to_set, elem_of_dependencies.
    split; [|tauto].
    intros [[Hb|Hd]|[?|[?|Hemp]]];
      [| |by right|by left|by apply elem_of_empty in Hemp].
    - apply list_elem_of_fmap in Hb as (e & -> & He).
      apply list_elem_of_filter in He as [[? ?] _]. tauto.
    - apply list_elem_of_fmap in Hd as (e & -> & He).
      apply list_elem_of_filter in He as [[? ?] _]. tauto. }
  split; [done|]. split; [done|]. split.
  - apply Hsym. intros u v. rewrite !Hw2, !Hw1. done.
  - unfold number_of_nodes. rewrite <- size_dom, Hnodes.
    rewrite size_empty_iff, elem_of_equiv_empty. split.
    + intros Hempty. destruct dependencies_df as [|d ds]; [done|].
      exfalso. apply (Hempty d), elem_of_union_r.
      unfold valid, valid_deps. apply elem_of_list_to_set, unique_from_spec.
      split; [left|apply not_elem_of_empty].
    + intros -> n [Hn|Hn]%elem_of_union.
      * apply elem_of_list_to_set in Hn. unfold bms, biomarkers in Hn.
        apply unique_from_spec in Hn as [Hn _]. fmapify.
        apply list_elem_of_fmap in Hn as (e & _ & He).
        unfold filtered, keep_positive, keep_listed in He.
        apply list_elem_of_filter in He as [_ He].
        apply list_elem_of_filter in He as [He _].
        by apply elem_of_empty in He.
      * by apply elem_of_empty in Hn.
Qed.

(** X12. The graph of [community_detection.py] has exactly the declared nodes:
    the biomarkers of the filtered rows and the listed dependencies (the
    edge loop adds none), each with its adjacency dictionary, and its
    weights are the same in both directions. *)
Theorem graph_has_the_declared_nodes (features_df : list edge)
  (dependencies_df : list string) :
  let G := CommunityDetection.build_graph features_df dependencies_df in
  dom (node G)
  = list_to_set (biomarkers (filtered features_df dependencies_df))
    ∪ valid_deps dependencies_df
  ∧ well_formed G
  ∧ (∀ u v, edge_weight G u v = edge_weight G v u)
  ∧ (number_of_nodes G = 0%nat ↔ dependencies_df = []).
Proof. apply build_graph_nodes. Qed.

(** X13. The second half of [community_detection.py] rejects the graph built by
    the first half exactly when the dependency table lists nothing. *)
Theorem partitioner_rejects_only_the_empty_graph
  (greedy_modularity_communities : Graph → list (list string))
  (features_df : list edge) (dependencies_df : list string) :
  (∃ e, communities_csv greedy_modularity_communities
          (CommunityDetection.build_graph features_df dependencies_df) = inl e)
  ↔ dependencies_df = [].
Proof.
  destruct (build_graph_nodes features_df dependencies_df)
    as (_ & _ & _ & Hzero).
  unfold communities_csv. case_bool_decide as Hn.
  - split; [intros _; by apply Hzero|eauto].
  - split; [by intros [? ?]|]. intros Hd. by apply Hzero in Hd.
Qed.

Lemma graph_has_the_declared_nodes_witness :
  number_of_nodes (CommunityDetection.build_graph Demo.three_edges []) = 0%nat.
Proof.
  apply (proj2 (proj2 (proj2 (proj2
           (graph_has_the_declared_nodes Demo.three_edges []))))).
  reflexivity.
Defined.

Lemma partitioner_rejects_only_the_empty_graph_witness :
  ∃ e, communities_csv Demo.two_communities
         (CommunityDetection.build_graph Demo.three_edges []) = inl e.
Proof.
  apply (proj2 (partitioner_rejects_only_the_empty_graph
                  Demo.two_communities Demo.three_edges [])).
  reflexivity.
Defined.



(** *** [network_build.py] *)

Lemma bipartite_add_weighted_edges_from (rows : list edge) (B : Graph)
  (n : string) :
  bipartite (add_weighted_edges_from rows B) n = bipartite B n.
Proof.
  unfold add_weighted_edges_from. revert B.
  induction rows as [|e rows IH]; intros B; cbn [foldl]; [done|].
  by rewrite IH, bipartite_add_edge.
Qed.

Lemma length_map_dependencies (achid_to_gene : option (gmap string string))
  (features_df : list edge) :
  length (map_dependencies achid_to_gene features_df) = length features_df.
Proof.
  unfold map_dependencies. destruct achid_to_gene; [|done].
  fmapify. by rewrite length_fmap.
Qed.

Lemma by_score_total (a b : edge) :
  Qle_bool (importance_score b) (importance_score a) = true
  ∨ Qle_bool (importance_score a) (importance_score b) = true.
Proof.
  rewrite !Qle_bool_iff.
  destruct (Qlt_le_dec (importance_score a) (importance_score b)) as [?%Qlt_le_weak|?];
    tauto.
Qed.

Lemma by_score_trans (a b c : edge) :
  Qle_bool (importance_score b) (importance_score a) = true →
  Qle_bool (importance_score c) (importance_score b) = true →
  Qle_bool (importance_score c) (importance_score a) = true.
Proof. rewrite !Qle_bool_iff. intros ? ?. by eapply Qle_trans. Qed.

(** X15. [network_build.py] turns every one of its top rows into an edge, with
    no check on the ends: the rows kept are the highest scored ones (all
    rows when there are at most 500000), a node is a dependency when it is
    listed, else a biomarker when a row names it so, and a dependency that
    is neither enters the graph as a node without class.  The graph is
    undirected. *)
Theorem network_build_adds_every_top_row
  (achid_to_gene : option (gmap string string)) (features_df : list edge)
  (dependencies_df : list string) :
  let B := NetworkBuild.build_graph achid_to_gene features_df dependencies_df in
  let mapped := map_dependencies achid_to_gene features_df in
  let rows :=
    take (Z.to_nat 500000)
      (sort_values (λ a b, Qle_bool (importance_score b) (importance_score a))
                   mapped) in
  (∀ e, e ∈ rows → has_edge B (biomarker e) (dependency e))
  ∧ (∀ n, bipartite B n
          = if bool_decide (n ∈ dependencies_df) then Some "dependency"
            else if bool_decide (n ∈ biomarker <$> mapped)
                 then Some "biomarker" else None)
  ∧ (∀ e, e ∈ rows → dependency e ∉ dependencies_df →
          dependency e ∉ biomarker <$> mapped →
          dependency e ∈ dom (node B) ∧ bipartite B (dependency e) = None)
  ∧ ((length features_df ≤ Z.to_nat 500000)%nat → rows ≡ₚ mapped)
  ∧ (∀ e e', e ∈ rows → e' ∈ mapped → e' ∉ rows →
             (importance_score e' <= importance_score e)%Q)
  ∧ (∀ u v, edge_weight B u v = edge_weight B v u).
Proof.
  intros B mapped rows. unfold B, NetworkBuild.build_graph.
  fold mapped. fold rows.
  set (bms := unique (map biomarker mapped)).
  destruct (add_nodes_from_well_formed bms {["bipartite" := "biomarker"]}
              empty_graph empty_graph_well_formed) as (Hwf1 & Hd1 & Hw1).
  destruct (add_nodes_from_well_formed (unique dependencies_df)
              {["bipartite" := "dependency"]} _ Hwf1) as (Hwf2 & Hd2 & Hw2).
  destruct (add_weighted_edges_from_spec rows _ Hwf2)
    as (Hwf & Hdom & _ & Hall & _ & Hsym).
  assert (Hclass : ∀ n,
    bipartite (add_weighted_edges_from rows
      (add_nodes_from (unique dependencies_df) {["bipartite" := "dependency"]}
         (add_nodes_from bms {["bipartite" := "biomarker"]} empty_graph))) n
    = if bool_decide (n ∈ dependencies_df) then Some "dependency"
      else if bool_decide (n ∈ biomarker <$> mapped)
           then Some "biomarker" else None).
  { intros n. rewrite bipartite_add_weighted_edges_from.
    rewrite !bipartite_add_nodes_from.
    rewrite (bool_decide_ext (n ∈ unique dependencies_df)
               (n ∈ dependencies_df)).
    2:{ unfold unique. rewrite (proj1 (proj2 (unique_from_spec ∅ _))).
        set_solver. }
    rewrite (bool_decide_ext (n ∈ bms) (n ∈ biomarker <$> mapped)).
    2:{ unfold bms, unique. rewrite (proj1 (proj2 (unique_from_spec ∅ _))).
        fmapify. set_solver. }
    done. }
  split; [done|]. split; [done|]. split; [|split; [|split]].
  - intros e He Hdep Hbm. split.
    + rewrite Hdom. apply elem_of_union_l, elem_of_union_r.
      apply elem_of_list_to_set, list_elem_of_fmap. by exists e.
    + rewrite Hclass. by rewrite !bool_decide_eq_false_2.
  - intros Hlen. unfold rows. rewrite take_ge.
    + apply sort_values_perm.
    + rewrite sort_values_perm. unfold mapped.
      by rewrite length_map_dependencies.
  - intros e e' He He' Hout.
    rewrite <- (sort_values_perm
                  (λ a b, Qle_bool (importance_score b) (importance_score a)))
      in He'.
    rewrite <- (take_drop (Z.to_nat 500000)) in He'.
    apply elem_of_app in He' as [?|He']; [done|].
    apply Qle_bool_iff.
    refine (StronglySorted_app_1_elem_of
              (λ a b, Qle_bool (importance_score b) (importance_score a) = true)
              _ _ e e' _ He He').
    unfold rows. rewrite take_drop.
    apply sort_values_sorted; [apply by_score_total|apply by_score_trans].
  - apply Hsym. intros u v. by rewrite !Hw2, !Hw1.
Qed.

Lemma network_build_adds_every_top_row_witness :
  let B := NetworkBuild.build_graph None [Edge "B1" "X" 1] ["D1"] in
  "X" ∈ dom (node B) ∧ bipartite B "X" = None.
Proof.
  refine (proj1 (proj2 (proj2 (network_build_adds_every_top_row None
                                 [Edge "B1" "X" 1] ["D1"])))
            (Edge "B1" "X" 1) _ _ _).
  - apply (bool_decide_unpack _). vm_compute. reflexivity.
  - apply (bool_decide_unpack _). vm_compute. reflexivity.
  - apply (bool_decide_unpack _). vm_compute. reflexivity.
Defined.

End graph_shape.

(** ** The community dictionary *)

Section community_ids.
Import Pandas CommunityDetection.

(** [d[k] = v] on a dictionary: the entry of [k] is [v], the others stay. *)
Lemma elem_of_dict_set_value {V} (k : string) (v : V) (d : list (string * V))
  (k' : string) (v' : V) :
  NoDup d.*1 →
  (k', v') ∈ dict_set k v d
  ↔ (k' = k ∧ v' = v) ∨ (k' ≠ k ∧ (k', v') ∈ d).
Proof.
  induction d as [|[k0 v0] d IH]; intros Hnd; cbn [dict_set].
  - rewrite list_elem_of_singleton, elem_of_nil. naive_solver.
  - rewrite fmap_cons in Hnd. apply NoDup_cons in Hnd as [Hk0 Hnd].
    case_bool_decide as Hk.
    + subst k0. rewrite !elem_of_cons. split.
      * intros [[= -> ->]|Hin]; [by left|]. right.
        split; [|by right]. intros ->. apply Hk0.
        apply list_elem_of_fmap. by exists (k, v').
      * intros [[-> ->]|[Hne [[= ? ?]|Hin]]]; [by left|done|by right].
    + rewrite !elem_of_cons, IH by done. split.
      * intros [[= -> ->]|[?|[? ?]]]; [|tauto|tauto].
        right. split; [congruence|by left].
      * intros [[-> ->]|[Hne [?|?]]]; tauto.
Qed.

(** Entering one community under id [i] gives its members the id [i] and
    leaves the entries of the other nodes alone. *)
Lemma enter_community_value (i : Z) (community : list string)
  (d : list (string * Z)) (n : string) (j : Z) :
  NoDup d.*1 →
  (n, j) ∈ foldl (λ d n, dict_set n i d) d community
  ↔ (n ∈ community ∧ j = i) ∨ ((n ∉ community) ∧ (n, j) ∈ d).
Proof.
  revert d. induction community as [|x c IH]; intros d Hnd; cbn [foldl].
  - rewrite elem_of_nil. pose proof (not_elem_of_nil n). tauto.
  - rewrite IH by by apply dict_set_NoDup.
    rewrite elem_of_dict_set_value by done.
    rewrite not_elem_of_cons, elem_of_cons.
    destruct (decide (n ∈ c)); destruct (decide (n = x)); tauto.
Qed.

Lemma partition_of_snoc (partition_sets : list (list string))
  (community : list string) :
  partition_of (partition_sets ++ [community])
  = foldl (λ d n, dict_set n (Z.of_nat (length partition_sets)) d)
          (partition_of partition_sets) community.
Proof.
  unfold partition_of. rewrite imap_app, foldl_app. cbn [imap foldl fst snd].
  by rewrite Nat.add_0_r.
Qed.

(** X16. A node that several communities contain gets the index of the last of
    them; the table holds nothing else, so every id is the index of a
    community. *)
Theorem partition_of_last_community_wins (partition_sets : list (list string))
  (n : string) (i : Z) :
  (n, i) ∈ partition_of partition_sets
  ↔ ∃ k community,
      i = Z.of_nat k ∧ partition_sets !! k = Some community ∧ n ∈ community
      ∧ ∀ k' community', (k < k')%nat →
          partition_sets !! k' = Some community' → n ∉ community'.
Proof.
  induction partition_sets as [|c ps IH] using rev_ind.
  - unfold partition_of. cbn [imap foldl]. rewrite elem_of_nil.
    split; [done|]. by intros (k & c & _ & ? & _).
  - rewrite partition_of_snoc.
    rewrite enter_community_value by apply partition_of_spec.
    rewrite IH. split.
    + intros [[Hn ->]|[Hn (k & c0 & -> & Hk & Hin & Hlast)]].
      * exists (length ps), c. split; [done|].
        split; [by rewrite list_lookup_middle|]. split; [done|].
        intros k' c' Hlt Hk'. apply lookup_lt_Some in Hk'.
        rewrite length_app in Hk'. simpl in Hk'. lia.
      * exists k, c0. split; [done|].
        split; [by apply lookup_app_l_Some|]. split; [done|].
        intros k' c' Hlt [Hk'|[-> ->]]%lookup_snoc_Some; [|done].
        destruct Hk' as [_ Hk']. by eapply Hlast.
    + intros (k & c0 & -> & [[Hlen Hk]|[-> ->]]%lookup_snoc_Some & Hin & Hlast).
      * right. split.
        -- apply (Hlast (length ps) c); [done|].
           by rewrite list_lookup_middle.
        -- exists k, c0. split; [done|]. split; [done|]. split; [done|].
           intros k' c' Hlt Hk'. apply (Hlast k' c' Hlt).
           by apply lookup_app_l_Some.
      * by left.
Qed.

Lemma partition_of_last_community_wins_witness :
  ∃ k community,
    1%Z = Z.of_nat k ∧ [["B1"]; ["B1"; "D1"]] !! k = Some community
    ∧ "B1" ∈ community
    ∧ ∀ k' community', (k < k')%nat →
        [["B1"]; ["B1"; "D1"]] !! k' = Some community' → "B1" ∉ community'.
Proof.
  apply (proj1 (partition_of_last_community_wins [["B1"]; ["B1"; "D1"]]
                  "B1" 1%Z)).
  apply (bool_decide_unpack _). vm_compute. reflexivity.
Defined.

End community_ids.

(** ** The scorer's table, and what [community_detection.py] does with it *)

Section scorer_table.
Import Pandas FeatureSelection CommunityDetection.

Lemma elem_of_flat_map {A B} (f : A → list B) (l : list A) (y : B) :
  y ∈ flat_map f l ↔ ∃ x, x ∈ l ∧ y ∈ f x.
Proof.
  rewrite list_elem_of_In, in_flat_map.
  by setoid_rewrite list_elem_of_In.
Qed.

Lemma group_size_app {A} (key : A → string) (k : string) (l1 l2 : list A) :
  group_size key k (l1 ++ l2)
  = (group_size key k l1 + group_size key k l2)%nat.
Proof. unfold group_size, group. by rewrite filter_app, length_app. Qed.

Lemma group_size_fmap {A} (key : A → string) (f : A → A) (k : string)
  (l : list A) :
  (∀ x, key (f x) = key x) →
  group_size key k (f <$> l) = group_size key k l.
Proof.
  intros Hf. unfold group_size, group. rewrite filter_fmap_comm, length_fmap.
  f_equal. apply list_filter_iff. intros x. by rewrite Hf.
Qed.

Lemma group_size_submseteq {A} (key : A → string) (k : string)
  (l1 l2 : list A) :
  l1 ⊆+ l2 → (group_size key k l1 ≤ group_size key k l2)%nat.
Proof.
  intros (l & Hsub & Hperm)%submseteq_sublist_l.
  rewrite <- (group_size_perm key k _ _ Hperm). by apply group_size_sublist.
Qed.

Lemma group_size_none {A} (key : A → string) (k : string) (l : list A) :
  Forall (λ x, key x ≠ k) l → group_size key k l = 0%nat.
Proof.
  intros Hl. unfold group_size, group.
  induction Hl as [|x l Hx _ IH]; [done|].
  rewrite filter_cons, decide_False by done. apply IH.
Qed.

Section one_run.
Context (corr : string → string → Q) (dep_names : list string).

Lemma biomarker_links_of (b : string) :
  Forall (λ e, biomarker e = b) (links_of corr dep_names b).
Proof.
  apply Forall_forall. intros e He.
  by apply elem_of_links_of in He as [? _].
Qed.

(** The links of one biomarker name every dependency at most once. *)
Lemma links_of_NoDup (b : string) :
  NoDup dep_names → NoDup (dependency <$> links_of corr dep_names b).
Proof.
  intros Hnd. rewrite links_of_unfold, <- list_fmap_compose.
  change (dependency ∘ _) with (fst : string * Q → string).
  eapply sublist_NoDup; [|apply fmap_sublist, sublist_filter].
  eapply sublist_NoDup; [|apply fmap_sublist, sublist_take].
  rewrite sort_values_perm. unfold magnitudes, corr_row. fmapify.
  rewrite <- !list_fmap_compose.
  by rewrite (list_fmap_ext _ id dep_names), list_fmap_id.
Qed.

Lemma biomarker_degree_links (b : string) (biomarker_names : list string) :
  NoDup biomarker_names →
  (biomarker_degree b (flat_map (links_of corr dep_names) biomarker_names)
   ≤ TOPK_PER_BIOMARKER)%nat.
Proof.
  unfold biomarker_degree.
  induction 1 as [|x names Hx Hnd IH]; cbn [flat_map]; [apply Nat.le_0_l|].
  rewrite group_size_app. destruct (decide (x = b)) as [->|Hne].
  - rewrite (group_size_none biomarker b (flat_map _ names)).
    + pose proof (length_links_of corr dep_names b).
      unfold group_size, group.
      pose proof (length_filter (λ r, biomarker r = b)
                    (links_of corr dep_names b)). lia.
    + apply Forall_forall. intros e He Hb. apply Hx.
      apply elem_of_flat_map in He as (y & Hy & He).
      apply elem_of_links_of in He as [Hy' _]. by rewrite <- Hb, Hy'.
  - rewrite (group_size_none biomarker b (links_of _ _ x)); [lia|].
    eapply Forall_impl; [apply biomarker_links_of|].
    simpl. intros e ->. done.
Qed.

Lemma pairs_NoDup (biomarker_names : list string) :
  NoDup biomarker_names → NoDup dep_names →
  NoDup ((λ e, (biomarker e, dependency e))
           <$> flat_map (links_of corr dep_names) biomarker_names).
Proof.
  intros Hb Hd. induction Hb as [|x names Hx Hnd IH]; cbn [flat_map].
  - constructor.
  - rewrite fmap_app. apply NoDup_app. split; [|split; [|done]].
    + apply (NoDup_fmap_1 snd). rewrite <- list_fmap_compose.
      by apply links_of_NoDup.
    + intros p (e & -> & He)%list_elem_of_fmap (e' & Heq & He')%list_elem_of_fmap.
      apply elem_of_links_of in He as [Hbx _].
      apply elem_of_flat_map in He' as (y & Hy & He').
      apply elem_of_links_of in He' as [Hby _].
      apply Hx. injection Heq as Hbb _. by rewrite <- Hbx, Hbb, Hby.
Qed.

End one_run.

(** The rows of the renormalised table. *)
Lemma elem_of_scorer_renormalize (out_df : list edge) (e : edge) :
  e ∈ FeatureSelection.renormalize out_df
  ↔ ∃ e0, e0 ∈ out_df
          ∧ e = with_score e0
                  (importance_score e0
                   / divisor (group_scores out_df (dependency e0))).
Proof.
  unfold FeatureSelection.renormalize. destruct out_df as [|x l] eqn:Heq.
  - rewrite elem_of_nil. split; [done|]. by intros (? & ?%elem_of_nil & _).
  - rewrite <- Heq. fmapify. rewrite list_elem_of_fmap. naive_solver.
Qed.

Lemma scorer_renormalize_fmap (out_df : list edge) :
  FeatureSelection.renormalize out_df
  = (λ e, with_score e
            (importance_score e
             / divisor (group_scores out_df (dependency e)))) <$> out_df.
Proof. by destruct out_df. Qed.

(** After the renormalisation every dependency has a row of score 1. *)
Lemma scorer_renormalize_top (out_df : list edge) (e : edge) :
  Forall (λ e, (MIN_ABS_CORR <= importance_score e)%Q) out_df →
  e ∈ FeatureSelection.renormalize out_df →
  ∃ top, top ∈ FeatureSelection.renormalize out_df
         ∧ dependency top = dependency e
         ∧ (importance_score top == 1)%Q.
Proof.
  intros Hmin (e0 & He0 & ->)%elem_of_scorer_renormalize.
  destruct (divisor_is_group_max out_df e0 Hmin He0)
    as (m & Hmax & Hpos & _ & Hdiv).
  apply series_max_Some in Hmax as [Hmem _].
  unfold group_scores in Hmem. fmapify.
  apply list_elem_of_fmap in Hmem as (t & -> & Ht).
  apply list_elem_of_filter in Ht as [Hd Ht].
  exists (with_score t (importance_score t
                        / divisor (group_scores out_df (dependency t)))).
  split; [|split].
  - apply elem_of_scorer_renormalize. by exists t.
  - done.
  - simpl. rewrite Hd, Hdiv. apply Qmult_inv_r.
    intros Hz. rewrite Hz in Hpos. by apply Qlt_irrefl in Hpos.
Qed.

(** X17. [feature_selection.py] links a biomarker and a dependency at most once,
    and a biomarker to at most [TOPK_PER_BIOMARKER] dependencies, when the
    column names of its two tables are distinct. *)
Theorem scorer_links_each_pair_once (corr : string → string → Q)
  (dep_names biomarker_names : list string) :
  NoDup biomarker_names → NoDup dep_names →
  let out := processed_features corr dep_names biomarker_names in
  NoDup ((λ e, (biomarker e, dependency e)) <$> out)
  ∧ ∀ b, (biomarker_degree b out ≤ TOPK_PER_BIOMARKER)%nat.
Proof.
  intros Hb Hd out. unfold out, processed_features.
  rewrite scorer_renormalize_fmap, rows_out_unbatched. split.
  - rewrite <- list_fmap_compose.
    by apply (pairs_NoDup corr dep_names biomarker_names).
  - intros b. unfold biomarker_degree. rewrite group_size_fmap by done.
    by apply biomarker_degree_links.
Qed.

Lemma scorer_links_each_pair_once_witness :
  let out := processed_features Demo.four_corr Demo.four_deps ["BM"] in
  NoDup ((λ e, (biomarker e, dependency e)) <$> out)
  ∧ ∀ b, (biomarker_degree b out ≤ TOPK_PER_BIOMARKER)%nat.
Proof.
  apply scorer_links_each_pair_once.
  - apply (bool_decide_unpack _). vm_compute. reflexivity.
  - apply (bool_decide_unpack _). vm_compute. reflexivity.
Defined.

(** X18. On the table written by [feature_selection.py], the first steps of
    [community_detection.py] change little: the filter on positive scores
    drops no row, the second renormalisation leaves every score as it is,
    and the cap per biomarker never binds, so that only the threshold and
    the cap per dependency remove rows. *)
Theorem community_detection_on_scorer_table (corr : string → string → Q)
  (dep_names biomarker_names dependencies_df : list string) :
  let table := processed_features corr dep_names biomarker_names in
  let kept := filtered table dependencies_df in
  let rows := CommunityDetection.renormalize kept in
  kept = keep_listed (valid_deps dependencies_df) table
  ∧ Forall2 (λ e r, biomarker r = biomarker e ∧ dependency r = dependency e
                    ∧ (importance_score r == importance_score e)%Q) kept rows
  ∧ (NoDup biomarker_names →
     sparsify rows ≡ₚ topk_per_dep (drop_small rows)).
Proof.
  intros table kept rows.
  pose proof (rows_out_reach_threshold corr dep_names biomarker_names) as Hmin.
  assert (Hunit : Forall (λ e, (0 < importance_score e)%Q
                               ∧ (importance_score e <= 1)%Q) table)
    by by apply renormalize_unit_interval.
  assert (Hkept : kept = keep_listed (valid_deps dependencies_df) table).
  { unfold kept, filtered, keep_positive. apply filter_Forall_id.
    apply Forall_forall. intros e [_ He]%list_elem_of_filter.
    by eapply Forall_forall in Hunit as [? _]. }
  assert (Hsub : ∀ e, e ∈ kept → e ∈ table).
  { intros e. rewrite Hkept. unfold keep_listed.
    by intros [_ ?]%list_elem_of_filter. }
  assert (Hpos : Forall (λ e, (0 < importance_score e)%Q) kept)
    by apply keep_positive_Forall.
  split; [done|]. split.
  - unfold rows, CommunityDetection.renormalize. fmapify.
    apply Forall2_fmap_r, Forall_Forall2_diag, Forall_forall.
    intros e He. simpl.
    rewrite biomarker_renormalize_row, dependency_renormalize_row.
    split; [done|]. split; [done|].
    destruct (scorer_renormalize_top _ e Hmin (Hsub e He))
      as (top & Htop & Hd & Hone).
    assert (Htk : top ∈ kept).
    { rewrite Hkept in He |- *. unfold keep_listed in *.
      apply list_elem_of_filter in He as [Hv _].
      apply list_elem_of_filter. by rewrite Hd. }
    destruct (group_max_of_row kept top Hpos Htk)
      as (m & t & Hm & _ & Hge & Ht & _ & Hs).
    rewrite Hd in Hm. unfold renormalize_row. rewrite Hm. simpl.
    assert (Hm1 : (m == 1)%Q).
    { apply Qle_antisym.
      - rewrite <- Hs. apply Hsub in Ht.
        by eapply Forall_forall in Hunit as [_ ?].
      - by rewrite <- Hone. }
    rewrite Hm1. unfold Qdiv. change (/ 1)%Q with 1%Q. apply Qmult_1_r.
  - intros Hnd. unfold sparsify.
    apply (truncation_spec biomarker TOPK_PER_BM). intros b.
    pose proof (proj1 (proj2 (truncation_spec dependency TOPK_PER_DEP
                                (drop_small rows)))) as Hdep.
    apply (group_size_submseteq biomarker b) in Hdep.
    fold (topk_per_dep (drop_small rows)) in Hdep.
    assert (group_size biomarker b (drop_small rows)
            ≤ group_size biomarker b rows)%nat as Hsmall
      by apply group_size_sublist, sublist_filter.
    assert (group_size biomarker b rows = group_size biomarker b kept) as Hr.
    { unfold rows, CommunityDetection.renormalize. fmapify.
      apply group_size_fmap, biomarker_renormalize_row. }
    assert (group_size biomarker b kept ≤ group_size biomarker b table)%nat
      as Hk.
    { rewrite Hkept. apply group_size_sublist, sublist_filter. }
    assert (group_size biomarker b table ≤ TOPK_PER_BIOMARKER)%nat as Ht.
    { unfold table, processed_features.
      rewrite scorer_renormalize_fmap, rows_out_unbatched.
      rewrite group_size_fmap by done.
      by apply (biomarker_degree_links corr dep_names b). }
    unfold TOPK_PER_BM, TOPK_PER_BIOMARKER in *. lia.
Qed.

Lemma community_detection_on_scorer_table_witness :
  let rows :=
    CommunityDetection.renormalize
      (filtered (processed_features Demo.four_corr Demo.four_deps ["BM"])
                Demo.four_deps) in
  sparsify rows ≡ₚ topk_per_dep (drop_small rows).
Proof.
  refine (proj2 (proj2 (community_detection_on_scorer_table Demo.four_corr
                          Demo.four_deps ["BM"] Demo.four_deps)) _).
  apply (bool_decide_unpack _). vm_compute. reflexivity.
Defined.

End scorer_table.
